(** * Portfolio chatbot (src/app.py): conversation state and response generation

    A shallow embedding of the Streamlit page script [src/app.py]:
    the credential lookup at the top of the script, the helper
    [generate_response], [display_chat_messages], the sidebar and the four
    page sections, followed by the properties the specification states
    about them.

    Python values are embedded as follows.
    - A [str] is the list of its Unicode code points ([pystr]).
    - A chat turn [{"role": r, "content": c}] is the record [Turn].
    - A Python [list] is a mutable object: it lives in a [heap] of list
      objects and is passed around by its location, so that the aliasing
      between [st.session_state.messages] and the argument of
      [generate_response] is the one of the source.
    - Script execution is a state-and-exception monad [M] over the [World]
      (heap, session state, process environment, [openai.api_key], the log,
      the rendered page and the calls made to the completion service).

    What lies outside the source is taken as follows.
    - The completion service is a function of the credential in force and
      of the request; it reads the messages it is passed and modifies
      neither them nor the list that holds them.
    - An exception is an instance of Python's [Exception].
    - The secret store [st.secrets] is absent when no [secrets.toml]
      exists, in which case reading it raises; otherwise it is the parsed
      file, whose values keep their Python behaviour under [in] and
      subscripting.  The texts of the exceptions raised there depend on the
      release of Python and Streamlit and are given in a short form.
    - Streamlit copies the top-level scalar secrets into [os.environ] when
      it reads the file.  The script reads the environment at lines 24-25
      only, before it reads the store, so this changes no run; the
      environment a later run starts from is universally quantified.
    - [st.chat_input] yields at most one text per run of the script. *)

From Stdlib Require Import NArith QArith.
From stdpp Require Import gmap strings list fin_maps.

Open Scope N_scope.
Open Scope list_scope.

(** ** Python strings *)

Abbreviation pystr := (list N).

(** An ASCII literal of the source as a [str]. *)
Definition lit (s : string) : pystr :=
  Ascii.N_of_ascii <$> String.list_ascii_of_string s.

(** [c.isspace()] for one code point: the table CPython uses for
    [str.strip()] without argument. *)
Definition is_space (c : N) : bool :=
  ((9 <=? c) && (c <=? 13)) || ((28 <=? c) && (c <=? 32))
  || (c =? 133) || (c =? 160) || (c =? 5760)
  || ((8192 <=? c) && (c <=? 8202))
  || (c =? 8232) || (c =? 8233) || (c =? 8239) || (c =? 8287)
  || (c =? 12288).

Fixpoint lstrip (s : pystr) : pystr :=
  match s with
  | c :: s' => if is_space c then lstrip s' else s
  | [] => []
  end.

Definition rstrip (s : pystr) : pystr := reverse (lstrip (reverse s)).

(** [s.strip()] *)
Definition strip (s : pystr) : pystr := rstrip (lstrip s).

(** [needle in haystack] on strings. *)
Fixpoint is_prefix (p s : pystr) : bool :=
  match p, s with
  | [], _ => true
  | a :: p', b :: s' => (a =? b) && is_prefix p' s'
  | _ :: _, [] => false
  end.

Fixpoint str_contains (needle haystack : pystr) : bool :=
  is_prefix needle haystack ||
  match haystack with
  | [] => false
  | _ :: h' => str_contains needle h'
  end.

(** Truth value of a string in a condition: non-empty. *)
Definition truthy (s : pystr) : bool :=
  match s with [] => false | _ :: _ => true end.

(** ** Turns *)

Record Turn := { role : pystr; content : pystr }.

#[global] Instance Turn_eq_dec : EqDecision Turn.
Proof. solve_decision. Defined.

Definition system_prompt : pystr :=
  lit "You are a friendly portfolio assistant who answers questions about my work, experience, and projects.".

Definition system_turn : Turn :=
  {| role := lit "system"; content := system_prompt |}.

Definition user_turn (s : pystr) : Turn :=
  {| role := lit "user"; content := s |}.

Definition assistant_turn (s : pystr) : Turn :=
  {| role := lit "assistant"; content := s |}.

Definition greeting : Turn :=
  assistant_turn (lit "Hi, I'm your portfolio assistant! How can I help you today?").

(** ** The completion service (openai==0.28.0, external) *)

(** The keyword arguments of [openai.ChatCompletion.create], the message
    list by value as it stands when the call is made. *)
Record Request := {
  model : pystr;
  messages : list Turn;
  temperature : Q
}.

(** [response.choices[i].message.content]; the content of a message can be
    [None]. *)
Record Choice := { message_content : option pystr }.
Record Response := { choices : list Choice }.

(** A raised exception: an instance of Python's [Exception], the class the
    handler of [generate_response] names ([except Exception as e]).
    [exn_str] is [str(e)].  Interpreter signals outside that class
    ([KeyboardInterrupt], [SystemExit]) are not failures of a call and are
    not modelled. *)
Record exn := { exn_class : string; exn_str : pystr }.

Inductive Outcome :=
| Returns (r : Response)
| Raises (e : exn).

(** ** The page *)

Record Figure := {
  fig_x : list Z; fig_y : list Z; fig_marker : pystr;
  fig_xlabel : pystr; fig_ylabel : pystr; fig_title : pystr
}.

(** What a run of the script sends to the browser, in order. *)
Inductive element :=
| set_page_config (page_title page_icon layout : pystr)
| st_error (body : pystr)
| st_markdown (body : pystr) (unsafe_allow_html : bool)
| st_title (body : pystr)
| st_write (body : pystr)
| st_subheader (body : pystr)
| st_radio (label : pystr) (options : list pystr)
| st_chat_input (placeholder : pystr)
| st_spinner (text : pystr)
| st_pyplot (fig : Figure)
| st_bar_chart (index : list pystr) (column : pystr) (values : list Z)
| st_image (url caption : pystr)
| st_video (url : pystr)
| in_sidebar (e : element).

(** ** Values of the secret store *)

(** A value of [st.secrets] as the script sees it, that is a value of the
    parsed [secrets.toml]: a string, a number, boolean or date ([SAtom],
    neither iterable nor subscriptable), an array, or a table.  A table
    lists its entries; a name occurs once in it.  [openai.api_key] holds
    such a value once assigned: an environment variable gives a string, a
    secret whatever the store holds under the name. *)
#[local] Set Warnings "-register-all".
Inductive secret :=
| SStr (s : pystr)
| SAtom (repr : pystr)
| SArray (items : list secret)
| STable (entries : list (string * secret)).

Abbreviation table := (list (string * secret)).

(** ** The world and the script monad *)

Abbreviation loc := positive.

Record World := {
  heap : gmap loc (list Turn);        (* Python list objects *)
  session_state : gmap string loc;    (* st.session_state *)
  environ : gmap string pystr;        (* os.environ *)
  api_key : option secret;            (* openai.api_key *)
  log : list pystr;                   (* records of logger.error *)
  ui : list element;                  (* elements rendered by this run *)
  calls : list Request                (* calls of ChatCompletion.create *)
}.

Definition set_heap (f : gmap loc (list Turn) → gmap loc (list Turn)) (w : World) : World :=
  {| heap := f (heap w); session_state := session_state w; environ := environ w;
     api_key := api_key w; log := log w; ui := ui w; calls := calls w |}.

Definition set_session_state (f : gmap string loc → gmap string loc) (w : World) : World :=
  {| heap := heap w; session_state := f (session_state w); environ := environ w;
     api_key := api_key w; log := log w; ui := ui w; calls := calls w |}.

Definition set_environ (f : gmap string pystr → gmap string pystr) (w : World) : World :=
  {| heap := heap w; session_state := session_state w; environ := f (environ w);
     api_key := api_key w; log := log w; ui := ui w; calls := calls w |}.

Definition set_api_key (k : option secret) (w : World) : World :=
  {| heap := heap w; session_state := session_state w; environ := environ w;
     api_key := k; log := log w; ui := ui w; calls := calls w |}.

Definition set_log (f : list pystr → list pystr) (w : World) : World :=
  {| heap := heap w; session_state := session_state w; environ := environ w;
     api_key := api_key w; log := f (log w); ui := ui w; calls := calls w |}.

Definition set_ui (f : list element → list element) (w : World) : World :=
  {| heap := heap w; session_state := session_state w; environ := environ w;
     api_key := api_key w; log := log w; ui := f (ui w); calls := calls w |}.

Definition set_calls (f : list Request → list Request) (w : World) : World :=
  {| heap := heap w; session_state := session_state w; environ := environ w;
     api_key := api_key w; log := log w; ui := ui w; calls := f (calls w) |}.

(** The result of a statement: normal completion or a raised exception. *)
Inductive res (A : Type) :=
| Ok (a : A)
| Exc (e : exn).
Arguments Ok {A} a.
Arguments Exc {A} e.

Definition M (A : Type) : Type := World → res A * World.

Definition ret {A} (a : A) : M A := λ w, (Ok a, w).

Definition bind {A B} (m : M A) (k : A → M B) : M B :=
  λ w, match m w with
       | (Ok a, w') => k a w'
       | (Exc e, w') => (Exc e, w')
       end.

Definition raise {A} (e : exn) : M A := λ w, (Exc e, w).

(** [try: body except Exception as e: handler e].  The effects of the body
    up to the raise stay. *)
Definition try_except {A} (body : M A) (handler : exn → M A) : M A :=
  λ w, match body w with
       | (Ok a, w') => (Ok a, w')
       | (Exc e, w') => handler e w'
       end.

Declare Scope py_scope.
Delimit Scope py_scope with py.
Notation "x <~ m ; k" := (bind m (λ x, k))
  (at level 20, m at level 100, k at level 200, only parsing) : py_scope.
Notation "m ;; k" := (bind m (λ _, k))
  (at level 100, k at level 200, only parsing, right associativity) : py_scope.
Open Scope py_scope.

(** *** List objects *)

(** A list display [[x; ...]]: a new list object. *)
Definition new_list (xs : list Turn) : M loc :=
  λ w, let l := fresh (dom (heap w)) in (Ok l, set_heap <[l := xs]> w).

(** The current contents of a list object. *)
Definition read_list (l : loc) : M (list Turn) :=
  λ w, (Ok (default [] (heap w !! l)), w).

(** [l.append(x)] *)
Definition list_append (l : loc) (x : Turn) : M unit :=
  xs <~ read_list l;
  λ w, (Ok tt, set_heap <[l := xs ++ [x]]> w).

(** [l.extend(src)] *)
Definition list_extend (l src : loc) : M unit :=
  ys <~ read_list src;
  xs <~ read_list l;
  λ w, (Ok tt, set_heap <[l := xs ++ ys]> w).

(** *** Streamlit and logging primitives *)

Definition emit (e : element) : M unit :=
  λ w, (Ok tt, set_ui (λ u, u ++ [e]) w).

Definition logger_error (msg : pystr) : M unit :=
  λ w, (Ok tt, set_log (λ l, l ++ [msg]) w).

(** ["k" in st.session_state] *)
Definition session_contains (k : string) : M bool :=
  λ w, (Ok (bool_decide (is_Some (session_state w !! k))), w).

(** [st.session_state.k = l] *)
Definition session_set (k : string) (l : loc) : M unit :=
  λ w, (Ok tt, set_session_state <[k := l]> w).

(** [st.session_state.k]: the stored object, [AttributeError] when absent. *)
Definition session_get (k : string) : M loc :=
  λ w, match session_state w !! k with
       | Some l => (Ok l, w)
       | None => (Exc {| exn_class := "AttributeError"; exn_str := lit k |}, w)
       end.

(** [for x in xs: body x] *)
Fixpoint for_each {A} (xs : list A) (body : A → M unit) : M unit :=
  match xs with
  | [] => ret tt
  | x :: xs' => body x;; for_each xs' body
  end.

(** [d[k]] on a mapping: [KeyError] when the key is absent. *)
Definition subscript {V} (d : gmap string V) (k : string) : M V :=
  match d !! k with
  | Some v => ret v
  | None => raise {| exn_class := "KeyError"; exn_str := lit k |}
  end.

(** [k in d] on a mapping. *)
Definition contains {V} (k : string) (d : gmap string V) : bool :=
  bool_decide (is_Some (d !! k)).

(** ** Credential resolution (lines 17-31) *)

(** The entry of a table under a name. *)
Fixpoint table_get (k : string) (t : table) : option secret :=
  match t with
  | [] => None
  | (k', v) :: t' => if bool_decide (k' = k) then Some v else table_get k t'
  end.

(** [v == k] for a value of the store and a string literal. *)
Definition is_text (k : string) (v : secret) : bool :=
  match v with
  | SStr s => bool_decide (s = lit k)
  | _ => false
  end.

(** [k in v] for a value of the store: a substring test on a string,
    membership in an array, the presence of the name in a table, and a
    [TypeError] on a value that is not iterable (a number, a boolean, a
    date). *)
Definition value_contains (k : string) (v : secret) : M bool :=
  match v with
  | SStr s => ret (str_contains (lit k) s)
  | SAtom _ =>
      raise {| exn_class := "TypeError"; exn_str := lit "argument is not iterable" |}
  | SArray items => ret (existsb (is_text k) items)
  | STable t => ret (bool_decide (is_Some (table_get k t)))
  end.

(** [v[k]] for a value of the store and a string [k]: the entry of a
    table, [KeyError] when the table has none, and a [TypeError] on
    anything that is not a table. *)
Definition value_subscript (v : secret) (k : string) : M secret :=
  match v with
  | STable t =>
      match table_get k t with
      | Some x => ret x
      | None => raise {| exn_class := "KeyError"; exn_str := lit k |}
      end
  | SStr _ =>
      raise {| exn_class := "TypeError"; exn_str := lit "string indices must be integers" |}
  | SArray _ =>
      raise {| exn_class := "TypeError"; exn_str := lit "list indices must be integers or slices, not str" |}
  | SAtom _ =>
      raise {| exn_class := "TypeError"; exn_str := lit "object is not subscriptable" |}
  end.

Definition no_secrets_file : exn :=
  {| exn_class := "FileNotFoundError"; exn_str := lit "No secrets found." |}.

(** [k in st.secrets] and [st.secrets[k]]: the store is the top-level
    table of [secrets.toml]; without such a file ([None]) reading the store
    raises. *)
Definition secrets_contains (st_secrets : option table) (k : string) : M bool :=
  match st_secrets with
  | Some t => value_contains k (STable t)
  | None => raise no_secrets_file
  end.

Definition secrets_subscript (st_secrets : option table) (k : string) : M secret :=
  match st_secrets with
  | Some t => value_subscript (STable t) k
  | None => raise no_secrets_file
  end.

(** [load_dotenv()]: the variables of the [.env] file enter [os.environ]
    where the process environment does not set them already. *)
Definition load_dotenv (dotenv : gmap string pystr) : M unit :=
  λ w, (Ok tt, set_environ (λ e, e ∪ dotenv) w).

Definition os_environ : M (gmap string pystr) :=
  λ w, (Ok (environ w), w).

(** [openai.api_key = v] *)
Definition assign_api_key (v : secret) : M unit :=
  λ w, (Ok tt, set_api_key (Some v) w).

Definition no_key_message : pystr :=
  lit "No OpenAI API key provided. Please set it in your .env file or in your Streamlit Cloud secrets.".

(** The banner of line 31. *)
Definition no_key_banner : element := st_error no_key_message.

Definition resolve_api_key (st_secrets : option table) : M unit :=
  env <~ os_environ;
  if contains "OPENAI_API_KEY" env then
    v <~ subscript env "OPENAI_API_KEY";
    assign_api_key (SStr v)
  else
    at_top <~ secrets_contains st_secrets "OPENAI_API_KEY";
    if at_top then
      v <~ secrets_subscript st_secrets "OPENAI_API_KEY";
      assign_api_key v
    else
      in_general <~ (has_general <~ secrets_contains st_secrets "general";
                     if has_general
                     then general <~ secrets_subscript st_secrets "general";
                          value_contains "OPENAI_API_KEY" general
                     else ret false);
      if in_general then
        general <~ secrets_subscript st_secrets "general";
        v <~ value_subscript general "OPENAI_API_KEY";
        assign_api_key v
      else
        emit no_key_banner.

(** ** Helper functions (lines 58-87) *)

Section Script.

(** The external completion service: what one call of
    [openai.ChatCompletion.create] does, given the credential in force and
    the request.  It sees the message list by value. *)
Variable completion_service : option secret → Request → Outcome.

Definition ChatCompletion_create (model_ : pystr) (messages_ : loc) (temperature_ : Q) : M Response :=
  msgs <~ read_list messages_;
  λ w, let req := {| model := model_; messages := msgs; temperature := temperature_ |} in
       let w' := set_calls (λ c, c ++ [req]) w in
       match completion_service (api_key w) req with
       | Returns r => (Ok r, w')
       | Raises e => (Exc e, w')
       end.

(** [xs[0]] *)
Definition first_item {A} (xs : list A) : M A :=
  match xs with
  | x :: _ => ret x
  | [] => raise {| exn_class := "IndexError"; exn_str := lit "list index out of range" |}
  end.

(** [c.message.content.strip()] *)
Definition content_strip (c : Choice) : M pystr :=
  match message_content c with
  | Some s => ret (strip s)
  | None => raise {| exn_class := "AttributeError";
                     exn_str := lit "'NoneType' object has no attribute 'strip'" |}
  end.

Definition generate_response (prompt : pystr) (conversation_history : loc) : M pystr :=
  messages_ <~ new_list [system_turn];
  list_extend messages_ conversation_history;;
  list_append messages_ {| role := lit "user"; content := prompt |};;
  try_except
    (response <~ ChatCompletion_create (lit "gpt-3.5-turbo") messages_ (6 # 10)%Q;
     c <~ first_item (choices response);
     content_strip c)
    (λ e,
       logger_error (lit "Error generating response: " ++ exn_str e);;
       ret (lit "Error: " ++ exn_str e)).

Definition display_chat_messages (messages_ : loc) : M unit :=
  msgs <~ read_list messages_;
  for_each msgs (λ msg,
    if bool_decide (role msg = lit "user") then
      emit (st_markdown (lit "<div class='user-message'><b>You:</b> " ++ content msg ++ lit "</div>") true)
    else if bool_decide (role msg = lit "assistant") then
      emit (st_markdown (lit "<div class='assistant-message'><b>Assistant:</b> " ++ content msg ++ lit "</div>") true)
    else ret tt).

(** ** Sidebar and sections (lines 89-200) *)

(** The selection in the sidebar radio: one of its four options, which
    [st.radio] returns as the option's text. *)
Inductive app_mode := Chatbot | PortfolioNavigation | FAQExperience | VisualsMultimedia.

#[global] Instance app_mode_eq_dec : EqDecision app_mode.
Proof. solve_decision. Defined.

Definition mode_label (m : app_mode) : pystr :=
  match m with
  | Chatbot => lit "Chatbot"
  | PortfolioNavigation => lit "Portfolio Navigation"
  | FAQExperience => lit "FAQ & Experience"
  | VisualsMultimedia => lit "Visuals & Multimedia"
  end.

Definition sidebar_title : element := in_sidebar (st_title (lit "Navigation")).

Definition sidebar_radio : element :=
  in_sidebar (st_radio (lit "Select Section:")
    [lit "Chatbot"; lit "Portfolio Navigation"; lit "FAQ & Experience"; lit "Visuals & Multimedia"]).

Definition sidebar (choice : app_mode) : M pystr :=
  emit sidebar_title;;
  emit sidebar_radio;;
  ret (mode_label choice).

(** [st.chat_input(...)]: shows the widget and returns the submitted text,
    [None] when nothing was submitted. *)
Definition chat_input (placeholder : pystr) (submitted : option pystr) : M (option pystr) :=
  emit (st_chat_input placeholder);; ret submitted.

(** Lines 105-108: the conversation history is created in the session
    state if it is not already present. *)
Definition init_messages : M unit :=
  present <~ session_contains "messages";
  if negb present then
    l <~ new_list [ {| role := lit "assistant";
                       content := lit "Hi, I'm your portfolio assistant! How can I help you today?" |} ];
    session_set "messages" l
  else ret tt.

Definition chatbot_section (submitted : option pystr) : M unit :=
  emit (st_title (lit "Interactive Portfolio Chatbot"));;
  emit (st_write (lit "Ask me anything about my projects, background, or data science in general!"));;
  init_messages;;
  shown <~ session_get "messages";
  display_chat_messages shown;;
  user_input <~ chat_input (lit "Type your message here:") submitted;
  match user_input with
  | Some text =>
      if truthy text then
        l <~ session_get "messages";
        list_append l {| role := lit "user"; content := text |};;
        emit (st_spinner (lit "Thinking..."));;
        history <~ session_get "messages";
        response <~ generate_response text history;
        l' <~ session_get "messages";
        list_append l' {| role := lit "assistant"; content := response |}
      else ret tt
  | None => ret tt
  end.

Definition projects : list (pystr * (pystr * pystr)) :=
  [ (lit "Project Alpha",
     (lit "A machine learning project using neural networks to predict stock prices.",
      lit "https://github.com/yourusername/project-alpha"));
    (lit "Project Beta",
     (lit "A data visualization dashboard analyzing social media trends.",
      lit "https://github.com/yourusername/project-beta"));
    (lit "Project Gamma",
     (lit "An NLP project for sentiment analysis on customer feedback.",
      lit "https://github.com/yourusername/project-gamma")) ].

Definition portfolio_section : M unit :=
  emit (st_title (lit "My Portfolio Projects"));;
  emit (st_write (lit "Explore some of the projects I've worked on:"));;
  for_each projects (λ '(project, (description, link)),
    emit (st_subheader project);;
    emit (st_write description);;
    emit (st_markdown (lit "[View Project](" ++ link ++ lit ")") false);;
    emit (st_markdown (lit "---") false)).

Definition faq : list (pystr * pystr) :=
  [ (lit "What is your background in data science?",
     lit "I hold a Master's in Data Science and have over 5 years of experience in the field.");
    (lit "Which programming languages do you use?",
     lit "I'm proficient in Python, R, SQL, and JavaScript.");
    (lit "How do you approach solving data problems?",
     lit "I follow a systematic process: problem understanding, data collection/cleaning, exploratory data analysis, modeling, and insight communication.") ].

Definition timeline : Figure :=
  {| fig_x := [2018; 2019; 2020; 2021; 2022]%Z; fig_y := [2; 3; 5; 4; 6]%Z;
     fig_marker := lit "o"; fig_xlabel := lit "Year";
     fig_ylabel := lit "Projects Completed"; fig_title := lit "Experience Timeline" |}.

Definition faq_section : M unit :=
  emit (st_title (lit "FAQ & My Experience"));;
  emit (st_write (lit "Below are some frequently asked questions and highlights from my experience."));;
  for_each faq (λ '(question, answer),
    emit (st_markdown (lit "**Q: " ++ question ++ lit "**") false);;
    emit (st_markdown (lit "A: " ++ answer) false);;
    emit (st_markdown (lit "---") false));;
  emit (st_subheader (lit "Experience Timeline"));;
  emit (st_write (lit "A quick look at my project milestones over the years."));;
  emit (st_pyplot timeline).

Definition visuals_section : M unit :=
  emit (st_title (lit "Interactive Visuals & Multimedia"));;
  emit (st_write (lit "Enjoy some interactive charts, images, and videos!"));;
  emit (st_subheader (lit "Project Categories"));;
  emit (st_bar_chart [lit "ML"; lit "Visualization"; lit "NLP"; lit "Data Engineering"]
          (lit "Projects") [4; 3; 5; 2]%Z);;
  emit (st_subheader (lit "My Data Science Journey"));;
  emit (st_image (lit "https://via.placeholder.com/600x300.png?text=Data+Science+Journey")
          (lit "Visualizing my path in data science"));;
  emit (st_subheader (lit "Introduction Video"));;
  emit (st_video (lit "https://www.youtube.com/watch?v=dQw4w9WgXcQ")).

Definition css : pystr := lit "
<style>
.user-message {
    background-color: #e6f7ff;
    padding: 10px;
    border-radius: 10px;
    margin-bottom: 10px;
}
.assistant-message {
    background-color: #f0f2f6;
    padding: 10px;
    border-radius: 10px;
    margin-bottom: 10px;
}
.stTextInput>div>div>input {
    border-radius: 10px;
}
</style>
".

(** What one run of the page receives from outside: the [.env] file, the
    secret store, the sidebar selection and the chat input. *)
Record Inputs := {
  dotenv : gmap string pystr;
  st_secrets : option table;
  selected : app_mode;
  submitted : option pystr
}.

(** Lines 5-9; the page icon is the code point U+1F4AC. *)
Definition page_config : element :=
  set_page_config (lit "Portfolio Chat & Navigation") [128172] (lit "centered").

(** Lines 38-56. *)
Definition page_style : element := st_markdown css true.

(** The script, top to bottom.  The logging set-up of lines 33-35 has no
    effect on the world. *)
Definition script (i : Inputs) : M unit :=
  emit page_config;;
  load_dotenv (dotenv i);;
  resolve_api_key (st_secrets i);;
  emit page_style;;
  mode <~ sidebar (selected i);
  if bool_decide (mode = lit "Chatbot") then chatbot_section (submitted i)
  else if bool_decide (mode = lit "Portfolio Navigation") then portfolio_section
  else if bool_decide (mode = lit "FAQ & Experience") then faq_section
  else if bool_decide (mode = lit "Visuals & Multimedia") then visuals_section
  else ret tt.

(** One run of the page for a browser event: the page is rendered anew,
    everything else carries over from the previous run. *)
Definition run_page (i : Inputs) (w : World) : res unit * World :=
  script i (set_ui (λ _, []) w).

End Script.

Arguments run_page completion_service i w : simpl never.

(** ** Observations on a world *)

(** The Conversation of the session: the contents of the list object that
    [st.session_state.messages] refers to, if the session has one. *)
Definition conversation (w : World) : option (list Turn) :=
  match session_state w !! "messages" with
  | Some l => heap w !! l
  | None => None
  end.

(** The world of a new session in a new process. *)
Definition initial_world : World :=
  {| heap := ∅; session_state := ∅; environ := ∅; api_key := None;
     log := []; ui := []; calls := [] |}.


(** The request [generate_response] makes for a prompt when the list it is
    given holds [history]. *)
Definition built_request (prompt : pystr) (history : list Turn) : Request :=
  {| model := lit "gpt-3.5-turbo";
     messages := system_turn :: history ++ [user_turn prompt];
     temperature := (6 # 10)%Q |}.

(** The specification's wording of trimming: [t] is [s] without its
    surrounding whitespace. *)
Definition whitespace (s : pystr) : Prop := Forall (λ c, is_space c = true) s.

Definition trimmed_of (s t : pystr) : Prop :=
  (∃ before after, s = before ++ t ++ after ∧ whitespace before ∧ whitespace after)
  ∧ (∀ c, head t = Some c → is_space c = false)
  ∧ (∀ c, last t = Some c → is_space c = false).

(** A stored turn is a user or an assistant turn. *)
Definition user_or_assistant (t : Turn) : Prop :=
  role t = lit "user" ∨ role t = lit "assistant".

(** The worlds a session can be in: it starts without session state and
    without calls made, and every browser event runs the page once, with
    whatever inputs and whatever behaviour of the completion service. *)
Inductive reachable : World → Prop :=
| reachable_new w :
    session_state w = ∅ → calls w = [] → reachable w
| reachable_run service i w r w' :
    reachable w → run_page service i w = (r, w') → reachable w'.

(** The title each section opens with. *)
Definition section_title (m : app_mode) : pystr :=
  match m with
  | Chatbot => lit "Interactive Portfolio Chatbot"
  | PortfolioNavigation => lit "My Portfolio Projects"
  | FAQExperience => lit "FAQ & My Experience"
  | VisualsMultimedia => lit "Interactive Visuals & Multimedia"
  end.

(** Test doubles of the completion service. *)
Definition stub_returning (text : pystr) : option secret → Request → Outcome :=
  λ _ _, Returns {| choices := [ {| message_content := Some text |} ] |}.

Definition stub_raising (message : pystr) : option secret → Request → Outcome :=
  λ _ _, Raises {| exn_class := "APIConnectionError"; exn_str := message |}.

(** A [secrets.toml] without entries. *)
Definition no_secrets : option table := Some [].

(** A browser event on the chatbot section, without [.env] file and with
    an empty secret store. *)
Definition chat_event (text : option pystr) : Inputs :=
  {| dotenv := ∅; st_secrets := no_secrets; selected := Chatbot; submitted := text |}.

(** The specification's wording of credential resolution: three sources
    in priority order, first match wins.  The sources are the environment
    variable, the top-level entry of the store and the entry of the
    top-level table [general]. *)
Definition first_match (env : gmap string pystr) (store : option table) : option secret :=
  match env !! "OPENAI_API_KEY" with
  | Some v => Some (SStr v)
  | None =>
      match store with
      | None => None
      | Some t =>
          match table_get "OPENAI_API_KEY" t with
          | Some v => Some v
          | None =>
              match table_get "general" t with
              | Some (STable general) => table_get "OPENAI_API_KEY" general
              | _ => None
              end
          end
      end
  end.

(** Credential resolution completes in a run: lines 24-31 raise nothing
    on the environment as [load_dotenv] leaves it. *)
Definition resolution_completes (i : Inputs) (w : World) : Prop :=
  fst (resolve_api_key (st_secrets i) (set_environ (λ e, e ∪ dotenv i) w)) = Ok tt.

(** A statement that only renders: it completes and changes nothing but
    the page, to which it adds elements. *)
Definition renderer (m : M unit) : Prop :=
  ∀ w, ∃ es, m w = (Ok tt, set_ui (λ u, u ++ es) w).

(** What the chatbot section does to a session whose list object [l] is
    stored in the heap [hp] when the section starts: nothing without a
    submitted text; with one, the user turn and the response are appended
    to [l], one new list object holds the messages of the request, and one
    call is made. *)
Definition chat_effect (service : option secret → Request → Outcome)
    (input : option pystr) (l : loc) (hp : gmap loc (list Turn)) (w w' : World) : Prop :=
  let old := default [] (hp !! l) in
  let idle := heap w' = hp ∧ calls w' = calls w ∧ log w' = log w in
  match input with
  | Some text =>
      if truthy text then
        let req := built_request text (old ++ [user_turn text]) in
        ∃ response,
          heap w' = <[l := old ++ [user_turn text; assistant_turn response]]>
                      (<[fresh (dom (<[l := old ++ [user_turn text]]> hp)) := messages req]>
                         (<[l := old ++ [user_turn text]]> hp))
          ∧ calls w' = calls w ++ [req]
          ∧ (∀ e, service (api_key w') req = Raises e →
               response = lit "Error: " ++ exn_str e
               ∧ log w' = log w ++ [lit "Error generating response: " ++ exn_str e])
          ∧ (∀ r c cs s, service (api_key w') req = Returns r →
               choices r = c :: cs → message_content c = Some s →
               response = strip s ∧ log w' = log w)
      else idle
  | None => idle
  end.

(** The invariant of a session: its conversation, once created, is the
    greeting followed by user and assistant turns, and every request made
    opens with the system turn. *)
Definition session_invariant (w : World) : Prop :=
  (∀ l, session_state w !! "messages" = Some l →
        ∃ rest, heap w !! l = Some (greeting :: rest) ∧ Forall user_or_assistant rest)
  ∧ Forall (λ req, head (messages req) = Some system_turn) (calls w).

Arguments lit : simpl never.

(** A session in mid-conversation: the list object [1] holds the greeting
    and one earlier exchange. *)
Definition demo_history : list Turn :=
  [greeting; user_turn (lit "What do you do?"); assistant_turn (lit "Data science.")].

Definition demo_world : World :=
  {| heap := {[ 1%positive := demo_history ]};
     session_state := {[ "messages" := 1%positive ]};
     environ := ∅; api_key := None; log := []; ui := []; calls := [] |}.

(** The event of submitting ["Hello"], and a service that is unreachable. *)
Definition hello_event : Inputs := chat_event (Some (lit "Hello")).

Definition connection_reset : exn :=
  {| exn_class := "APIConnectionError"; exn_str := lit "Connection reset" |}.

Definition failing_service : option secret → Request → Outcome :=
  stub_raising (lit "Connection reset").

(** The session right after its first rendering of the chatbot section. *)
Definition seeded_world : World :=
  snd (run_page (stub_returning (lit "Hi there")) (chat_event None) initial_world).

(** The four credential scenarios of the specification, on the portfolio
    section of a new session. *)
Definition portfolio_event (env : gmap string pystr) (s : option table) : Inputs :=
  {| dotenv := env; st_secrets := s; selected := PortfolioNavigation; submitted := None |}.

Definition only_environment : Inputs :=
  portfolio_event {[ "OPENAI_API_KEY" := lit "sk-env" ]} no_secrets.

Definition only_flat_secret : Inputs :=
  portfolio_event ∅ (Some [ ("OPENAI_API_KEY", SStr (lit "sk-flat")) ]).

Definition only_nested_secret : Inputs :=
  portfolio_event ∅
    (Some [ ("general", STable [ ("OPENAI_API_KEY", SStr (lit "sk-nested")) ]) ]).

Definition no_credential : Inputs := portfolio_event ∅ no_secrets.

Definition all_three_sources : Inputs :=
  portfolio_event {[ "OPENAI_API_KEY" := lit "sk-env" ]}
    (Some [ ("OPENAI_API_KEY", SStr (lit "sk-flat"));
            ("general", STable [ ("OPENAI_API_KEY", SStr (lit "sk-nested")) ]) ]).

(** Neither a key in the environment nor a [secrets.toml]. *)
Definition no_secrets_file_event : Inputs := portfolio_event ∅ None.

(** The key in the environment and no [secrets.toml]. *)
Definition environment_without_file : Inputs :=
  portfolio_event {[ "OPENAI_API_KEY" := lit "sk-env" ]} None.

(** A store whose table is named like the key, and stores in which
    [general] is a string. *)
Definition table_named_like_key : Inputs :=
  portfolio_event ∅ (Some [ ("OPENAI_API_KEY", STable [ ("value", SStr (lit "sk-inner")) ]) ]).

Definition general_is_key_name : Inputs :=
  portfolio_event ∅ (Some [ ("general", SStr (lit "OPENAI_API_KEY")) ]).

Definition general_is_other_text : Inputs :=
  portfolio_event ∅ (Some [ ("general", SStr (lit "staging")) ]).

(** What [display_chat_messages] renders for one message: the body of its
    loop, as the list of elements it emits. *)
Definition bubble (msg : Turn) : list element :=
  if bool_decide (role msg = lit "user") then
    [st_markdown (lit "<div class='user-message'><b>You:</b> " ++ content msg ++ lit "</div>") true]
  else if bool_decide (role msg = lit "assistant") then
    [st_markdown (lit "<div class='assistant-message'><b>Assistant:</b> " ++ content msg ++ lit "</div>") true]
  else [].

(** The conversation the chatbot section has in the session once line 108
    is passed: the stored one, or the greeting if the session had none. *)
Definition displayed_conversation (w : World) : list Turn :=
  match session_state w !! "messages" with
  | Some l => default [] (heap w !! l)
  | None => [greeting]
  end.

(** The same browser event without submitted text. *)
Definition idle (i : Inputs) : Inputs :=
  {| dotenv := dotenv i; st_secrets := st_secrets i; selected := selected i;
     submitted := None |}.

(** A conversation as a list of exchanges (text submitted, text answered),
    and the requests these exchanges give rise to: the request of an
    exchange is built from the conversation as it stands once the user
    turn of that exchange is stored. *)
Definition exchange (qa : pystr * pystr) : list Turn :=
  [user_turn qa.1; assistant_turn qa.2].

Definition dialogue (exchanges : list (pystr * pystr)) : list Turn :=
  greeting :: (exchanges ≫= exchange).

Definition requests_of (exchanges : list (pystr * pystr)) : list Request :=
  imap (λ k qa, built_request qa.1 (dialogue (take k exchanges) ++ [user_turn qa.1]))
       exchanges.

(** A session that has not rendered the chatbot section yet, in a process
    that holds other list objects. *)
Definition unseeded_world : World :=
  {| heap := {[ 1%positive := demo_history ]}; session_state := ∅;
     environ := ∅; api_key := None; log := []; ui := []; calls := [] |}.

(** A history that holds a turn of a role the page does not show. *)
Definition mixed_history : list Turn :=
  [system_turn; user_turn (lit "<b>Hello</b>"); assistant_turn (lit "Hi there")].

Definition mixed_world : World :=
  {| heap := {[ 1%positive := mixed_history ]};
     session_state := {[ "messages" := 1%positive ]};
     environ := ∅; api_key := None; log := []; ui := []; calls := [] |}.

(** A service whose response has no choices. *)
Definition empty_service : option secret → Request → Outcome :=
  λ _ _, Returns {| choices := [] |}.

(** A service whose first choice has no content. *)
Definition silent_service : option secret → Request → Outcome :=
  λ _ _, Returns {| choices := [ {| message_content := None |} ] |}.

(** The event of submitting the empty string, and a run of the portfolio
    section. *)
Definition empty_event : Inputs := chat_event (Some []).

Definition portfolio_with_text : Inputs :=
  {| dotenv := ∅; st_secrets := no_secrets; selected := PortfolioNavigation;
     submitted := Some (lit "Hello") |}.

(** The part of the page that precedes the selected section, with and
    without the banner of line 31. *)
Definition page_head : list element :=
  [page_config; page_style; sidebar_title; sidebar_radio].

Definition page_head_without_key : list element :=
  [page_config; no_key_banner; page_style; sidebar_title; sidebar_radio].

(** The invariant that ties the conversation to the calls made: they come
    from the same list of exchanges. *)
Definition dialogue_invariant (w : World) : Prop :=
  (session_state w !! "messages" = None ∧ calls w = [])
  ∨ ∃ exchanges, conversation w = Some (dialogue exchanges)
                 ∧ calls w = requests_of exchanges.

(** A process in which an earlier run has found a credential. *)
Definition keyed_world : World :=
  {| heap := {[ 1%positive := demo_history ]};
     session_state := {[ "messages" := 1%positive ]};
     environ := ∅; api_key := Some (SStr (lit "sk-earlier")); log := []; ui := [];
     calls := [] |}.

(** A service that answers only requests made with that credential. *)
Definition keyed_service : option secret → Request → Outcome :=
  λ key _,
    match key with
    | Some (SStr s) =>
        if bool_decide (s = lit "sk-earlier")
        then Returns {| choices := [ {| message_content := Some (lit "Hi there") |} ] |}
        else Raises {| exn_class := "AuthenticationError"; exn_str := lit "Incorrect API key." |}
    | _ => Raises {| exn_class := "AuthenticationError"; exn_str := lit "No API key provided." |}
    end.

(** * Properties *)

(** ** Strings *)

Lemma lstrip_decompose s :
  ∃ before, s = before ++ lstrip s ∧ whitespace before.
Proof.
  induction s as [|c s [before [Hs Hw]]]; simpl.
  - exists []. split; [reflexivity | constructor].
  - destruct (is_space c) eqn:Hc.
    + exists (c :: before). split.
      * simpl. congruence.
      * constructor; assumption.
    + exists []. split; [reflexivity | constructor].
Qed.

Lemma lstrip_head s c : head (lstrip s) = Some c → is_space c = false.
Proof.
  induction s as [|a s IH]; simpl; [discriminate|].
  destruct (is_space a) eqn:Ha; [exact IH|].
  simpl. intros [= <-]. exact Ha.
Qed.

Lemma whitespace_reverse s : whitespace s → whitespace (reverse s).
Proof. unfold whitespace. intros H. apply Forall_reverse. exact H. Qed.

Lemma rstrip_decompose s :
  ∃ after, s = rstrip s ++ after ∧ whitespace after.
Proof.
  unfold rstrip.
  destruct (lstrip_decompose (reverse s)) as [before [Hs Hw]].
  exists (reverse before). split.
  - rewrite <- reverse_app, <- Hs. symmetry. apply reverse_involutive.
  - apply whitespace_reverse. exact Hw.
Qed.

Lemma rstrip_last s c : last (rstrip s) = Some c → is_space c = false.
Proof.
  unfold rstrip. rewrite last_reverse. apply lstrip_head.
Qed.

(** Stripping on the right of a string that starts with a non-space keeps
    its first character. *)
Lemma rstrip_head s c :
  head s = Some c → is_space c = false → head (rstrip s) = Some c.
Proof.
  intros Hh Hc.
  destruct (rstrip_decompose s) as [after [Hs Hw]].
  destruct (rstrip s) as [|a t] eqn:Hr.
  - simpl in Hs. subst after. destruct s as [|a s]; [discriminate|].
    simpl in Hh. injection Hh as ->.
    inversion Hw; subst. congruence.
  - rewrite Hs in Hh. simpl in Hh. exact Hh.
Qed.

Lemma strip_trimmed s : trimmed_of s (strip s).
Proof.
  unfold strip, trimmed_of.
  destruct (lstrip_decompose s) as [before [Hs Hb]].
  destruct (rstrip_decompose (lstrip s)) as [after [Ht Ha]].
  split; [|split].
  - exists before, after. split; [|split]; try assumption.
    rewrite <- Ht. exact Hs.
  - intros c Hc.
    destruct (lstrip s) as [|a t] eqn:Hl.
    + vm_compute in Hc. discriminate.
    + destruct (is_space a) eqn:Hsp.
      * pose proof (lstrip_head s a) as H. rewrite Hl in H.
        specialize (H eq_refl). congruence.
      * rewrite (rstrip_head (a :: t) a eq_refl Hsp) in Hc. congruence.
  - apply rstrip_last.
Qed.

Lemma lstrip_whitespace_app before s : whitespace before → lstrip (before ++ s) = lstrip s.
Proof.
  induction 1 as [|c before Hc _ IH]; simpl; [reflexivity|].
  rewrite Hc. exact IH.
Qed.

Lemma lstrip_whitespace s : whitespace s → lstrip s = [].
Proof.
  intros H. rewrite <- (app_nil_r s). rewrite lstrip_whitespace_app by exact H. reflexivity.
Qed.

Lemma lstrip_id s : (∀ c, head s = Some c → is_space c = false) → lstrip s = s.
Proof.
  destruct s as [|c s]; simpl; [reflexivity|].
  intros H. rewrite (H c eq_refl). reflexivity.
Qed.

(** The trimmed text is unique: [strip] computes it. *)
Lemma trimmed_of_strip s t : trimmed_of s t → t = strip s.
Proof.
  intros [(before & after & -> & Hb & Ha) [Hhead Hlast]].
  unfold strip. rewrite (lstrip_whitespace_app before _ Hb).
  destruct t as [|c t].
  - simpl. rewrite (lstrip_whitespace after Ha). reflexivity.
  - rewrite (lstrip_id ((c :: t) ++ after)) by (intros c' [= <-]; apply Hhead; reflexivity).
    unfold rstrip. rewrite reverse_app.
    rewrite (lstrip_whitespace_app (reverse after)) by (apply whitespace_reverse; exact Ha).
    rewrite lstrip_id.
    + symmetry. apply reverse_involutive.
    + intros c' Hc'. apply Hlast. rewrite <- Hc'. symmetry. apply head_reverse.
Qed.

Example strip_spaces : strip (lit "  Hi there ") = lit "Hi there".
Proof. reflexivity. Qed.

Example strip_unicode_whitespace :
  strip ([160; 9] ++ lit "x y" ++ [8195; 10]) = lit "x y".
Proof. reflexivity. Qed.

Example strip_blank : strip [32; 9; 10; 12288] = [].
Proof. reflexivity. Qed.

Lemma is_prefix_app p s : is_prefix p (p ++ s) = true.
Proof.
  induction p as [|a p IH]; simpl; [reflexivity|].
  rewrite N.eqb_refl. exact IH.
Qed.

Lemma str_contains_prefix p s : str_contains p (p ++ s) = true.
Proof.
  destruct (p ++ s) eqn:E; simpl; rewrite <- E, is_prefix_app; reflexivity.
Qed.

(** ** Running statements *)

Lemma bind_ok {A B} (m : M A) (k : A → M B) w a w' :
  m w = (Ok a, w') → bind m k w = k a w'.
Proof. unfold bind. intros ->. reflexivity. Qed.

Lemma bind_emit {B} e (k : unit → M B) w :
  bind (emit e) k w = k tt (set_ui (λ u, u ++ [e]) w).
Proof. reflexivity. Qed.

(** The [if]/[elif] chain on the radio's text selects by option. *)
Lemma dispatch_mode {A} (a b c d e : A) mode :
  (if bool_decide (mode_label mode = lit "Chatbot") then a
   else if bool_decide (mode_label mode = lit "Portfolio Navigation") then b
   else if bool_decide (mode_label mode = lit "FAQ & Experience") then c
   else if bool_decide (mode_label mode = lit "Visuals & Multimedia") then d
   else e)
  = match mode with
    | Chatbot => a
    | PortfolioNavigation => b
    | FAQExperience => c
    | VisualsMultimedia => d
    end.
Proof. destruct mode; reflexivity. Qed.

Lemma fresh_loc_free (h : gmap loc (list Turn)) : h !! fresh (dom h) = None.
Proof. apply not_elem_of_dom. apply is_fresh. Qed.

Lemma fresh_loc_ne (h : gmap loc (list Turn)) l :
  is_Some (h !! l) → l ≠ fresh (dom h).
Proof.
  intros [xs Hl] ->. rewrite fresh_loc_free in Hl. discriminate.
Qed.

(** The effect of the three statements that build the message list: one
    new list object holding the system turn, the history and the prompt. *)
Lemma build_messages_run prompt h w history :
  heap w !! h = Some history →
  (messages_ <~ new_list [system_turn];
   list_extend messages_ h;;
   list_append messages_ {| role := lit "user"; content := prompt |};;
   ret messages_) w
  = (Ok (fresh (dom (heap w))),
     set_heap <[fresh (dom (heap w)) := system_turn :: history ++ [user_turn prompt]]> w).
Proof.
  intros Hh.
  assert (Hne : h ≠ fresh (dom (heap w))) by (apply fresh_loc_ne; eauto).
  unfold bind, new_list, list_extend, list_append, read_list, bind, ret. simpl.
  rewrite !lookup_insert_eq. simpl.
  rewrite lookup_insert_ne by (intros E; apply Hne; symmetry; exact E).
  rewrite Hh. simpl.
  unfold set_heap. simpl. rewrite !insert_insert_eq. reflexivity.
Qed.

Section GenerateResponse.

Variable service : option secret → Request → Outcome.

(** [generate_response] builds one new list object, calls the service once
    with its contents, and handles whatever the [try] block raises. *)
Lemma generate_response_run prompt h w history :
  heap w !! h = Some history →
  generate_response service prompt h w =
    let req := built_request prompt history in
    let w1 := set_calls (λ c, c ++ [req])
                (set_heap <[fresh (dom (heap w)) := messages req]> w) in
    try_except
      (match service (api_key w) req with
       | Returns response => c <~ first_item (choices response); content_strip c
       | Raises e => raise e
       end)
      (λ e, logger_error (lit "Error generating response: " ++ exn_str e);;
            ret (lit "Error: " ++ exn_str e))
      w1.
Proof.
  intros Hh.
  pose proof (build_messages_run prompt h w history Hh) as Hb.
  unfold generate_response.
  unfold bind at 1 2 3 in Hb. unfold bind at 1 2 3.
  destruct (new_list [system_turn] w) as [[m|e] w0] eqn:Hn; [|discriminate].
  destruct (list_extend m h w0) as [[[]|e] w0'] eqn:He; [|discriminate].
  destruct (list_append m _ w0') as [[[]|e] w0''] eqn:Ha; [|discriminate].
  unfold ret in Hb. injection Hb as -> ->.
  unfold try_except, ChatCompletion_create, bind, read_list. simpl.
  rewrite lookup_insert_eq. simpl.
  unfold built_request. simpl.
  destruct (service (api_key w) _) as [r|e]; reflexivity.
Qed.

(** Every call returns a text; the world changes by the new list object,
    the recorded call and, on failure, one log record. *)
Lemma generate_response_effect prompt h w history :
  heap w !! h = Some history →
  ∃ text w',
    generate_response service prompt h w = (Ok text, w')
    ∧ heap w' = <[fresh (dom (heap w)) := messages (built_request prompt history)]> (heap w)
    ∧ session_state w' = session_state w
    ∧ environ w' = environ w ∧ api_key w' = api_key w ∧ ui w' = ui w
    ∧ calls w' = calls w ++ [built_request prompt history]
    ∧ (∀ e, service (api_key w) (built_request prompt history) = Raises e →
         text = lit "Error: " ++ exn_str e
         ∧ log w' = log w ++ [lit "Error generating response: " ++ exn_str e])
    ∧ (∀ r c cs s,
         service (api_key w) (built_request prompt history) = Returns r →
         choices r = c :: cs → message_content c = Some s →
         text = strip s ∧ log w' = log w).
Proof.
  intros Hh. rewrite (generate_response_run prompt h w history Hh).
  cbv zeta. unfold try_except.
  destruct (service (api_key w) (built_request prompt history)) as [r|e] eqn:Hs.
  - destruct r as [[|c cs]].
    + eexists _, _. unfold bind, first_item, raise, logger_error, ret. simpl.
      repeat split; try reflexivity; intros; simplify_eq.
    + destruct c as [[s|]].
      * eexists _, _. unfold bind, first_item, content_strip, ret. simpl.
        repeat split; try reflexivity; intros; simplify_eq/=; reflexivity.
      * eexists _, _.
        unfold bind, first_item, content_strip, raise, logger_error, ret. simpl.
        repeat split; try reflexivity; intros; simplify_eq/=.
  - eexists _, _. unfold bind, raise, logger_error, ret. simpl.
    repeat split; try reflexivity; intros; simplify_eq; reflexivity.
Qed.

End GenerateResponse.

(** A response without choices, and one whose first message has no
    content, fail inside the [try] block and are answered like a failed
    call. *)
Example empty_choices_are_answered :
  fst (generate_response (λ _ _, Returns {| choices := [] |}) (lit "Hello") 1%positive demo_world)
  = Ok (lit "Error: list index out of range").
Proof. vm_compute. reflexivity. Qed.

Example missing_content_is_answered :
  fst (generate_response (λ _ _, Returns {| choices := [ {| message_content := None |} ] |})
         (lit "Hello") 1%positive demo_world)
  = Ok (lit "Error: 'NoneType' object has no attribute 'strip'").
Proof. vm_compute. reflexivity. Qed.

(** ** Rendering *)

Lemma set_ui_nil w : set_ui (λ u, u ++ []) w = w.
Proof. destruct w. unfold set_ui. simpl. rewrite app_nil_r. reflexivity. Qed.

Lemma set_ui_app es1 es2 w :
  set_ui (λ u, u ++ es2) (set_ui (λ u, u ++ es1) w) = set_ui (λ u, u ++ (es1 ++ es2)) w.
Proof. unfold set_ui. simpl. rewrite app_assoc. reflexivity. Qed.

Lemma renderer_emit e : renderer (emit e).
Proof. intros w. exists [e]. reflexivity. Qed.

Lemma renderer_ret : renderer (ret tt).
Proof. intros w. exists []. rewrite set_ui_nil. reflexivity. Qed.

Lemma renderer_seq m k : renderer m → renderer k → renderer (m;; k).
Proof.
  intros Hm Hk w. destruct (Hm w) as [es1 H1].
  destruct (Hk (set_ui (λ u, u ++ es1) w)) as [es2 H2].
  exists (es1 ++ es2). unfold bind. rewrite H1, H2, set_ui_app. reflexivity.
Qed.

Lemma renderer_for_each {A} (xs : list A) body :
  (∀ x, renderer (body x)) → renderer (for_each xs body).
Proof.
  intros Hb. induction xs as [|x xs IH]; simpl.
  - apply renderer_ret.
  - apply renderer_seq; [apply Hb | exact IH].
Qed.

Create HintDb render.
#[local] Hint Resolve renderer_emit renderer_ret renderer_seq : render.

Lemma display_chat_messages_run l w :
  ∃ es, display_chat_messages l w = (Ok tt, set_ui (λ u, u ++ es) w).
Proof.
  unfold display_chat_messages, bind, read_list.
  apply renderer_for_each. intros msg.
  repeat case_bool_decide; auto with render.
Qed.

(** A section that opens with its title and only renders after it. *)
Lemma titled_renderer t rest w :
  renderer rest →
  ∃ body, (emit (st_title t);; rest) w
          = (Ok tt, set_ui (λ u, u ++ st_title t :: body) w).
Proof.
  intros Hr. destruct (Hr (set_ui (λ u, u ++ [st_title t]) w)) as [es He].
  exists es. unfold bind, emit. rewrite He, set_ui_app. reflexivity.
Qed.

Lemma portfolio_section_run w :
  ∃ body, portfolio_section w
          = (Ok tt, set_ui (λ u, u ++ st_title (section_title PortfolioNavigation) :: body) w).
Proof.
  apply titled_renderer. apply renderer_seq; [apply renderer_emit|].
  apply renderer_for_each. intros [project [description link]].
  auto 10 with render.
Qed.

Lemma faq_section_run w :
  ∃ body, faq_section w
          = (Ok tt, set_ui (λ u, u ++ st_title (section_title FAQExperience) :: body) w).
Proof.
  apply titled_renderer. apply renderer_seq; [apply renderer_emit|].
  apply renderer_seq; [|auto 10 with render].
  apply renderer_for_each. intros [question answer].
  auto 10 with render.
Qed.

Lemma visuals_section_run w :
  ∃ body, visuals_section w
          = (Ok tt, set_ui (λ u, u ++ st_title (section_title VisualsMultimedia) :: body) w).
Proof.
  apply titled_renderer. auto 20 with render.
Qed.

(** ** The chatbot section *)

Opaque lit.

Lemma contains_lookup {V} k (d : gmap string V) :
  contains k d = match d !! k with Some _ => true | None => false end.
Proof.
  unfold contains. destruct (d !! k).
  - apply bool_decide_eq_true_2. eauto.
  - apply bool_decide_eq_false_2. intros [? ?]. discriminate.
Qed.

Lemma init_messages_present w l :
  session_state w !! "messages" = Some l → init_messages w = (Ok tt, w).
Proof.
  intros Hl. unfold init_messages, bind, session_contains.
  rewrite bool_decide_eq_true_2 by eauto. reflexivity.
Qed.

Lemma init_messages_absent w :
  session_state w !! "messages" = None →
  init_messages w =
    (Ok tt, set_session_state <["messages" := fresh (dom (heap w))]>
              (set_heap <[fresh (dom (heap w)) := [greeting]]> w)).
Proof.
  intros Hl. unfold init_messages, bind, session_contains.
  rewrite bool_decide_eq_false_2 by (rewrite Hl; intros [? ?]; discriminate).
  reflexivity.
Qed.

Section ChatbotSection.

Variable service : option secret → Request → Outcome.

(** The section once the session holds its list object [l]. *)
Lemma chatbot_section_initialised input w l :
  session_state w !! "messages" = Some l →
  ∃ w' body,
    chatbot_section service input w = (Ok tt, w')
    ∧ session_state w' = session_state w
    ∧ api_key w' = api_key w ∧ environ w' = environ w
    ∧ ui w' = ui w ++ st_title (section_title Chatbot) :: body
    ∧ chat_effect service input l (heap w) w w'.
Proof.
  intros Hl. unfold chat_effect, chatbot_section.
  unfold bind at 1 2. simpl.
  erewrite bind_ok; [|apply (init_messages_present _ l); exact Hl].
  unfold bind at 1. unfold session_get at 1. simpl. rewrite Hl.
  match goal with |- context [bind (display_chat_messages l) _ ?w0] =>
    destruct (display_chat_messages_run l w0) as [es Hes] end.
  erewrite bind_ok; [|exact Hes].
  unfold chat_input. unfold bind at 1 2. simpl.
  match goal with |- context [set_ui ?f (set_ui ?g (set_ui ?h (set_ui ?k w)))] =>
    set (w0 := set_ui f (set_ui g (set_ui h (set_ui k w)))) end.
  assert (Hui : ui w0 = ui w ++ st_title (lit "Interactive Portfolio Chatbot")
                  :: (st_write (lit "Ask me anything about my projects, background, or data science in general!")
                      :: es ++ [st_chat_input (lit "Type your message here:")])).
  { unfold w0. simpl. rewrite <- !app_assoc. reflexivity. }
  assert (Hidle : ∃ w' body, ret tt w0 = (Ok tt, w')
            ∧ session_state w' = session_state w
            ∧ api_key w' = api_key w ∧ environ w' = environ w
            ∧ ui w' = ui w ++ st_title (lit "Interactive Portfolio Chatbot") :: body
            ∧ heap w' = heap w ∧ calls w' = calls w ∧ log w' = log w).
  { eexists w0, _. repeat split; try reflexivity. exact Hui. }
  destruct input as [text|]; [|exact Hidle].
  destruct (truthy text); [|exact Hidle].
  clear Hidle.
  unfold bind at 1. unfold session_get at 1. replace (session_state w0) with (session_state w) by reflexivity.
  rewrite Hl.
  unfold bind at 1. unfold list_append at 1, bind at 1, read_list at 1.
  replace (heap w0) with (heap w) by reflexivity.
  set (old := default [] (heap w !! l)).
  unfold bind at 1. unfold emit at 1.
  unfold bind at 1. unfold session_get at 1. simpl session_state. rewrite Hl.
  match goal with |- context [bind (generate_response service text l) _ ?w1'] => set (w1 := w1') end.
  assert (H1 : heap w1 !! l = Some (old ++ [user_turn text])).
  { unfold w1. simpl. apply lookup_insert_eq. }
  destruct (generate_response_effect service text l w1 _ H1)
    as (response & w2 & Hrun & Hheap & Hsess & Henv & Hkey & Hui2 & Hcalls & Hraise & Hreturn).
  erewrite bind_ok; [|exact Hrun].
  unfold bind at 1. unfold session_get at 1. rewrite Hsess. simpl session_state. rewrite Hl.
  unfold list_append, bind, read_list.
  assert (H2 : heap w2 !! l = Some (old ++ [user_turn text])).
  { rewrite Hheap. rewrite lookup_insert_ne; [exact H1|].
    intros E. symmetry in E. revert E. apply fresh_loc_ne. eauto. }
  rewrite H2. simpl default.
  eexists _, _. split; [reflexivity|].
  simpl. rewrite Hsess, Hkey, Henv, Hui2, Hheap, Hcalls.
  split; [reflexivity|]. split; [reflexivity|]. split; [reflexivity|].
  split.
  - unfold w1. simpl. rewrite <- !app_assoc. reflexivity.
  - exists response. rewrite <- app_assoc.
    split; [reflexivity|]. split; [reflexivity|].
    split; [exact Hraise | exact Hreturn].
Qed.

(** A session without conversation: the section behaves as on the seeded
    session. *)
Lemma chatbot_section_seed input w :
  session_state w !! "messages" = None →
  chatbot_section service input w =
  chatbot_section service input
    (set_session_state <["messages" := fresh (dom (heap w))]>
       (set_heap <[fresh (dom (heap w)) := [greeting]]> w)).
Proof.
  intros Hn. unfold chatbot_section.
  rewrite !bind_emit.
  erewrite bind_ok; [|apply init_messages_absent; exact Hn].
  symmetry.
  erewrite bind_ok; [|eapply init_messages_present; simpl; apply lookup_insert_eq].
  reflexivity.
Qed.

(** ** The script *)

Lemma is_Some_bool {A} (o : option A) :
  bool_decide (is_Some o) = match o with Some _ => true | None => false end.
Proof.
  destruct o.
  - apply bool_decide_eq_true_2. eauto.
  - apply bool_decide_eq_false_2. intros [? ?]. discriminate.
Qed.

Ltac run_resolve Hw :=
  unfold resolve_api_key, bind, os_environ, subscript, secrets_contains,
    secrets_subscript, value_contains, value_subscript, raise, ret,
    assign_api_key, emit;
  cbn beta iota; rewrite ?Hw, ?contains_lookup, ?is_Some_bool.

(** Credential resolution depends on the environment and the store only:
    it either raises, leaving the world as it is, or completes, and then
    it assigns the first match or, without one, shows the banner. *)
Lemma resolve_api_key_cases env s :
  (∃ e, ∀ w, environ w = env → resolve_api_key s w = (Exc e, w))
  ∨ (∀ w, environ w = env →
       resolve_api_key s w
       = (Ok tt, match first_match env s with
                 | Some v => set_api_key (Some v) w
                 | None => set_ui (λ u, u ++ [no_key_banner]) w
                 end)).
Proof.
  unfold first_match.
  destruct (env !! "OPENAI_API_KEY") as [v|] eqn:He.
  { right. intros w Hw. run_resolve Hw. rewrite He. reflexivity. }
  destruct s as [t|].
  2:{ left. eexists. intros w Hw. run_resolve Hw. rewrite He. reflexivity. }
  destruct (table_get "OPENAI_API_KEY" t) as [v|] eqn:Ht.
  { right. intros w Hw. run_resolve Hw. rewrite He, Ht. reflexivity. }
  destruct (table_get "general" t) as [g|] eqn:Hg.
  2:{ right. intros w Hw. run_resolve Hw. rewrite He, Ht, Hg. reflexivity. }
  destruct g as [text | repr | items | general].
  - destruct (str_contains (lit "OPENAI_API_KEY") text) eqn:Hin.
    + left. eexists. intros w Hw. run_resolve Hw. rewrite He, Ht, Hg, Hin. reflexivity.
    + right. intros w Hw. run_resolve Hw. rewrite He, Ht, Hg, Hin. reflexivity.
  - left. eexists. intros w Hw. run_resolve Hw. rewrite He, Ht, Hg. reflexivity.
  - destruct (existsb (is_text "OPENAI_API_KEY") items) eqn:Hin.
    + left. eexists. intros w Hw. run_resolve Hw. rewrite He, Ht, Hg, Hin. reflexivity.
    + right. intros w Hw. run_resolve Hw. rewrite He, Ht, Hg, Hin. reflexivity.
  - destruct (table_get "OPENAI_API_KEY" general) as [v|] eqn:Hk.
    + right. intros w Hw. run_resolve Hw. rewrite He, Ht, Hg, is_Some_bool, Hk. reflexivity.
    + right. intros w Hw. run_resolve Hw. rewrite He, Ht, Hg, is_Some_bool, Hk. reflexivity.
Qed.

Lemma resolution_completes_iff i w :
  resolution_completes i w
  ↔ ∀ w', environ w' = environ w ∪ dotenv i →
          resolve_api_key (st_secrets i) w'
          = (Ok tt, match first_match (environ w ∪ dotenv i) (st_secrets i) with
                    | Some v => set_api_key (Some v) w'
                    | None => set_ui (λ u, u ++ [no_key_banner]) w'
                    end).
Proof.
  unfold resolution_completes.
  destruct (resolve_api_key_cases (environ w ∪ dotenv i) (st_secrets i)) as [[e H] | H].
  - split.
    + intros Hc. rewrite H in Hc by reflexivity. discriminate.
    + intros H'. rewrite H' by reflexivity. reflexivity.
  - split; [intros _; exact H|].
    intros _. rewrite H by reflexivity. reflexivity.
Qed.

Lemma resolution_stops i w :
  ¬ resolution_completes i w →
  ∃ e, ∀ w', environ w' = environ w ∪ dotenv i →
             resolve_api_key (st_secrets i) w' = (Exc e, w').
Proof.
  intros Hn.
  destruct (resolve_api_key_cases (environ w ∪ dotenv i) (st_secrets i)) as [H | H];
    [exact H|].
  exfalso. apply Hn. apply resolution_completes_iff. exact H.
Qed.

Lemma resolution_completes_dec i w :
  resolution_completes i w ∨ ¬ resolution_completes i w.
Proof.
  destruct (resolve_api_key_cases (environ w ∪ dotenv i) (st_secrets i)) as [[e H] | H].
  - right. unfold resolution_completes.
    rewrite H by reflexivity. discriminate.
  - left. apply resolution_completes_iff. exact H.
Qed.

Lemma resolution_completes_environ i w1 w2 :
  environ w1 = environ w2 → resolution_completes i w1 → resolution_completes i w2.
Proof.
  intros He H. apply resolution_completes_iff. rewrite <- He.
  apply resolution_completes_iff. exact H.
Qed.

(** Inputs on which lines 24-31 raise nothing. *)
Lemma resolution_completes_when i w :
  is_Some ((environ w ∪ dotenv i) !! "OPENAI_API_KEY")
  ∨ (∃ t, st_secrets i = Some t
          ∧ (is_Some (table_get "OPENAI_API_KEY" t)
             ∨ table_get "general" t = None
             ∨ ∃ general, table_get "general" t = Some (STable general))) →
  resolution_completes i w.
Proof.
  intros H. unfold resolution_completes.
  remember (set_environ (λ e, e ∪ dotenv i) w) as w0 eqn:Ew0.
  assert (Hw : environ w0 = environ w ∪ dotenv i) by (subst w0; reflexivity).
  clear Ew0. run_resolve Hw.
  destruct ((environ w ∪ dotenv i) !! "OPENAI_API_KEY") as [v|]; [reflexivity|].
  destruct H as [[? H] | (t & -> & H)]; [discriminate|].
  cbn beta iota. rewrite ?is_Some_bool.
  destruct (table_get "OPENAI_API_KEY" t) as [v|]; [reflexivity|].
  destruct H as [[? H] | [H | (general & H)]]; [discriminate | |]; rewrite H;
    cbn beta iota; rewrite ?is_Some_bool.
  - reflexivity.
  - destruct (table_get "OPENAI_API_KEY" general); reflexivity.
Qed.

(** What precedes the selected section when credential resolution
    completes: page configuration, style and sidebar. *)
Lemma script_prelude i w :
  resolution_completes i w →
  ∃ w1,
    script service i w =
      match selected i with
      | Chatbot => chatbot_section service (submitted i)
      | PortfolioNavigation => portfolio_section
      | FAQExperience => faq_section
      | VisualsMultimedia => visuals_section
      end w1
    ∧ heap w1 = heap w ∧ session_state w1 = session_state w
    ∧ calls w1 = calls w ∧ log w1 = log w
    ∧ environ w1 = environ w ∪ dotenv i
    ∧ match first_match (environ w ∪ dotenv i) (st_secrets i) with
      | Some v =>
          api_key w1 = Some v
          ∧ ui w1 = ui w ++ [page_config; page_style; sidebar_title; sidebar_radio]
      | None =>
          api_key w1 = api_key w
          ∧ ui w1 = ui w ++ [page_config; no_key_banner; page_style; sidebar_title; sidebar_radio]
      end.
Proof.
  intros Hres. rewrite resolution_completes_iff in Hres.
  unfold script, sidebar. unfold bind at 1 2. simpl.
  unfold bind at 1. rewrite Hres by reflexivity.
  unfold bind, emit, ret. rewrite dispatch_mode.
  destruct (first_match (environ w ∪ dotenv i) (st_secrets i)) as [v|];
    eexists; (split; [reflexivity|]); simpl; rewrite <- !app_assoc;
    repeat split; reflexivity.
Qed.

(** When credential resolution raises, the script stops there: only the
    page configuration has been sent and the environment loaded. *)
Lemma script_stopped i w :
  ¬ resolution_completes i w →
  ∃ e w1,
    script service i w = (Exc e, w1)
    ∧ heap w1 = heap w ∧ session_state w1 = session_state w
    ∧ calls w1 = calls w ∧ log w1 = log w
    ∧ environ w1 = environ w ∪ dotenv i
    ∧ api_key w1 = api_key w
    ∧ ui w1 = ui w ++ [page_config].
Proof.
  intros Hn. destruct (resolution_stops i w Hn) as [e He].
  unfold script. unfold bind at 1 2. simpl.
  unfold bind at 1. rewrite He by reflexivity.
  eexists _, _. split; [reflexivity|]. repeat split.
Qed.

Lemma section_renders mode input w :
  ∃ w' body,
    match mode with
    | Chatbot => chatbot_section service input
    | PortfolioNavigation => portfolio_section
    | FAQExperience => faq_section
    | VisualsMultimedia => visuals_section
    end w = (Ok tt, w')
    ∧ api_key w' = api_key w ∧ environ w' = environ w
    ∧ ui w' = ui w ++ st_title (section_title mode) :: body.
Proof.
  destruct mode.
  - destruct (session_state w !! "messages") as [l|] eqn:Hs.
    + destruct (chatbot_section_initialised input w l Hs)
        as (w' & body & -> & _ & Hk & He & Hu & _).
      eexists _, _. repeat split; eassumption.
    + rewrite (chatbot_section_seed input w Hs).
      match goal with |- context [chatbot_section service input ?w0] =>
        destruct (chatbot_section_initialised input w0 (fresh (dom (heap w))))
          as (w' & body & -> & _ & Hk & He & Hu & _) end.
      { simpl. apply lookup_insert_eq. }
      eexists _, _. repeat split; eassumption.
  - destruct (portfolio_section_run w) as [body ->]. eexists _, _. repeat split.
  - destruct (faq_section_run w) as [body ->]. eexists _, _. repeat split.
  - destruct (visuals_section_run w) as [body ->]. eexists _, _. repeat split.
Qed.

(** A run in which credential resolution completes runs to the end; the
    credential in force afterwards is the first match, and the page shows
    the banner exactly when there is none. *)
Lemma run_page_renders i w :
  resolution_completes i w →
  ∃ w' body,
    run_page service i w = (Ok tt, w')
    ∧ environ w' = environ w ∪ dotenv i
    ∧ match first_match (environ w ∪ dotenv i) (st_secrets i) with
      | Some v =>
          api_key w' = Some v
          ∧ ui w' = [page_config; page_style; sidebar_title; sidebar_radio]
                    ++ st_title (section_title (selected i)) :: body
      | None =>
          api_key w' = api_key w
          ∧ ui w' = [page_config; no_key_banner; page_style; sidebar_title; sidebar_radio]
                    ++ st_title (section_title (selected i)) :: body
      end.
Proof.
  intros Hres. unfold run_page.
  destruct (script_prelude i (set_ui (λ _, []) w)
              (resolution_completes_environ i w (set_ui (λ _, []) w) eq_refl Hres))
    as (w1 & -> & _ & _ & _ & _ & Henv & Hkey).
  destruct (section_renders (selected i) (submitted i) w1)
    as (w' & body & -> & Hk & He & Hu).
  exists w', body. split; [reflexivity|].
  rewrite He, Hk, Hu. split; [exact Henv|].
  simpl environ in Hkey.
  destruct (first_match (environ w ∪ dotenv i) (st_secrets i));
    destruct Hkey as [-> ->]; split; reflexivity.
Qed.

(** The sections other than the chatbot leave session and heap alone. *)
Lemma run_page_static i w :
  resolution_completes i w →
  selected i ≠ Chatbot →
  ∃ w', run_page service i w = (Ok tt, w')
        ∧ heap w' = heap w ∧ session_state w' = session_state w
        ∧ calls w' = calls w ∧ log w' = log w.
Proof.
  intros Hres Hm. unfold run_page.
  destruct (script_prelude i (set_ui (λ _, []) w)
              (resolution_completes_environ i w (set_ui (λ _, []) w) eq_refl Hres))
    as (w1 & -> & Hh & Hs & Hc & Hl & _ & _).
  destruct (selected i); [congruence| | |].
  - destruct (portfolio_section_run w1) as [body ->]. eexists. repeat split; assumption.
  - destruct (faq_section_run w1) as [body ->]. eexists. repeat split; assumption.
  - destruct (visuals_section_run w1) as [body ->]. eexists. repeat split; assumption.
Qed.

(** The chatbot section on a session that holds its conversation. *)
Lemma run_page_chat i w l :
  resolution_completes i w →
  selected i = Chatbot →
  session_state w !! "messages" = Some l →
  ∃ w', run_page service i w = (Ok tt, w')
        ∧ session_state w' = session_state w
        ∧ chat_effect service (submitted i) l (heap w) w w'.
Proof.
  intros Hres Hm Hs. unfold run_page.
  destruct (script_prelude i (set_ui (λ _, []) w)
              (resolution_completes_environ i w (set_ui (λ _, []) w) eq_refl Hres))
    as (w1 & -> & Hh & Hss & Hc & Hl & _ & _).
  rewrite Hm.
  destruct (chatbot_section_initialised (submitted i) w1 l)
    as (w' & body & -> & Hs' & _ & _ & _ & Heff).
  { rewrite Hss. exact Hs. }
  exists w'. split; [reflexivity|]. split; [rewrite Hs', Hss; reflexivity|].
  unfold chat_effect in *. rewrite Hh, Hc, Hl in Heff. exact Heff.
Qed.

(** The chatbot section on a session without conversation: the list
    object is created with the greeting, then the section proceeds. *)
Lemma run_page_chat_new i w :
  resolution_completes i w →
  selected i = Chatbot →
  session_state w !! "messages" = None →
  ∃ w', run_page service i w = (Ok tt, w')
        ∧ session_state w' = <["messages" := fresh (dom (heap w))]> (session_state w)
        ∧ chat_effect service (submitted i) (fresh (dom (heap w)))
            (<[fresh (dom (heap w)) := [greeting]]> (heap w)) w w'.
Proof.
  intros Hres Hm Hs. unfold run_page.
  destruct (script_prelude i (set_ui (λ _, []) w)
              (resolution_completes_environ i w (set_ui (λ _, []) w) eq_refl Hres))
    as (w1 & -> & Hh & Hss & Hc & Hl & _ & _).
  rewrite Hm, chatbot_section_seed by (rewrite Hss; exact Hs).
  match goal with |- context [chatbot_section service _ ?w0] =>
    destruct (chatbot_section_initialised (submitted i) w0 (fresh (dom (heap w1))))
      as (w' & body & -> & Hs' & _ & _ & _ & Heff) end.
  { simpl. apply lookup_insert_eq. }
  exists w'. split; [reflexivity|].
  simpl in Hs', Heff. rewrite Hh, Hss in *.
  split; [exact Hs'|].
  unfold chat_effect in *. simpl in Heff. rewrite Hc, Hl in Heff. exact Heff.
Qed.

(** A run in which credential resolution raises stops at lines 24-31:
    the page holds the configuration only, and heap, session state, calls,
    log and credential are as before. *)
Lemma run_page_stopped i w :
  ¬ resolution_completes i w →
  ∃ e w', run_page service i w = (Exc e, w')
          ∧ heap w' = heap w ∧ session_state w' = session_state w
          ∧ calls w' = calls w ∧ log w' = log w
          ∧ api_key w' = api_key w
          ∧ ui w' = [page_config].
Proof.
  intros Hn. unfold run_page.
  destruct (script_stopped i (set_ui (λ _, []) w))
    as (e & w1 & -> & Hh & Hs & Hc & Hl & _ & Hk & Hu).
  { intros H. apply Hn. exact (resolution_completes_environ i (set_ui (λ _, []) w) w eq_refl H). }
  exists e, w1. split; [reflexivity|]. repeat split; assumption.
Qed.

End ChatbotSection.

Lemma conversation_inv w c :
  conversation w = Some c →
  ∃ l, session_state w !! "messages" = Some l ∧ heap w !! l = Some c.
Proof.
  unfold conversation. destruct (session_state w !! "messages") as [l|]; [|discriminate].
  intros H. exists l. split; [reflexivity | exact H].
Qed.

Lemma conversation_intro w l c :
  session_state w !! "messages" = Some l → heap w !! l = Some c →
  conversation w = Some c.
Proof. unfold conversation. intros -> ->. reflexivity. Qed.

(** One submitted message on an existing conversation, in a run whose
    credential resolution completes: the run completes, the conversation
    gains the user turn and the response, and one call is made, for the
    conversation as it stands after the user turn. *)
Lemma chat_submitted service i w old text r w' :
  resolution_completes i w →
  selected i = Chatbot → submitted i = Some text → truthy text = true →
  conversation w = Some old →
  run_page service i w = (r, w') →
  r = Ok tt
  ∧ ∃ response,
      conversation w' = Some (old ++ [user_turn text; assistant_turn response])
      ∧ calls w' = calls w ++ [built_request text (old ++ [user_turn text])]
      ∧ (∀ e, service (api_key w') (built_request text (old ++ [user_turn text])) = Raises e →
           response = lit "Error: " ++ exn_str e
           ∧ log w' = log w ++ [lit "Error generating response: " ++ exn_str e])
      ∧ (∀ r c cs s,
           service (api_key w') (built_request text (old ++ [user_turn text])) = Returns r →
           choices r = c :: cs → message_content c = Some s →
           response = strip s ∧ log w' = log w).
Proof.
  intros Hres Hm Hin Ht Hc Hrun.
  destruct (conversation_inv w old Hc) as (l & Hs & Hh).
  destruct (run_page_chat service i w l Hres Hm Hs) as (w0 & Hrun0 & Hs' & Heff).
  rewrite Hrun in Hrun0. injection Hrun0 as -> <-.
  split; [reflexivity|].
  unfold chat_effect in Heff. rewrite Hin, Ht, Hh in Heff. simpl default in Heff.
  destruct Heff as (response & Hheap & Hcalls & Hraise & Hreturn).
  exists response. split; [|split; [exact Hcalls | split; [exact Hraise | exact Hreturn]]].
  apply (conversation_intro _ l); [rewrite Hs'; exact Hs|].
  rewrite Hheap. apply lookup_insert_eq.
Qed.

Transparent lit.

(** * The claims *)

(** C1. For every history of N turns and every user string S, the message
    list [generate_response] builds, which is the one it sends, has length
    N + 2, starts with the fixed system turn and ends with the turn
    [{role: user, content: S}]. *)
Theorem generate_response_message_list service prompt h w history :
  heap w !! h = Some history →
  ∃ text w' req,
    generate_response service prompt h w = (Ok text, w')
    ∧ calls w' = calls w ++ [req]
    ∧ heap w' !! fresh (dom (heap w)) = Some (messages req)
    ∧ length (messages req) = (length history + 2)%nat
    ∧ messages req !! 0%nat = Some system_turn
    ∧ last (messages req) = Some {| role := lit "user"; content := prompt |}.
Proof.
  intros Hh.
  destruct (generate_response_effect service prompt h w history Hh)
    as (text & w' & Hrun & Hheap & _ & _ & _ & _ & Hcalls & _).
  exists text, w', (built_request prompt history).
  split; [exact Hrun|]. split; [exact Hcalls|].
  split; [rewrite Hheap; apply lookup_insert_eq|].
  simpl messages. split; [|split].
  - simpl. rewrite length_app. simpl. lia.
  - reflexivity.
  - rewrite app_comm_cons. apply last_snoc.
Qed.

Lemma generate_response_message_list_witness :
  heap demo_world !! 1%positive = Some demo_history
  ∧ ∃ text w' req,
      generate_response (stub_returning (lit "Hi there")) (lit "Hello") 1%positive demo_world
        = (Ok text, w')
      ∧ calls w' = calls demo_world ++ [req]
      ∧ heap w' !! fresh (dom (heap demo_world)) = Some (messages req)
      ∧ length (messages req) = (length demo_history + 2)%nat
      ∧ messages req !! 0%nat = Some system_turn
      ∧ last (messages req) = Some {| role := lit "user"; content := lit "Hello" |}.
Proof.
  split; [reflexivity|].
  apply (generate_response_message_list (stub_returning (lit "Hi there")) (lit "Hello")
           1%positive demo_world demo_history).
  reflexivity.
Defined.

(** C8. When the completion call succeeds, [generate_response] returns
    the content of the first choice of the response with the surrounding
    whitespace stripped. *)
Theorem generate_response_success service prompt h w history r c cs s :
  heap w !! h = Some history →
  service (api_key w) (built_request prompt history) = Returns r →
  choices r = c :: cs →
  message_content c = Some s →
  ∃ text w',
    generate_response service prompt h w = (Ok text, w')
    ∧ calls w' = calls w ++ [built_request prompt history]
    ∧ text = strip s
    ∧ trimmed_of s text
    ∧ ∀ t, trimmed_of s t → t = text.
Proof.
  intros Hh Hs Hc Hm.
  destruct (generate_response_effect service prompt h w history Hh)
    as (text & w' & Hrun & _ & _ & _ & _ & _ & Hcalls & _ & Hreturn).
  destruct (Hreturn r c cs s Hs Hc Hm) as [-> _].
  exists (strip s), w'. split; [exact Hrun|]. split; [exact Hcalls|].
  split; [reflexivity|].
  split; [apply strip_trimmed | apply trimmed_of_strip].
Qed.

Lemma generate_response_success_witness :
  heap demo_world !! 1%positive = Some demo_history
  ∧ stub_returning (lit "  Hi there ") (api_key demo_world)
      (built_request (lit "Hello") demo_history)
    = Returns {| choices := [ {| message_content := Some (lit "  Hi there ") |} ] |}
  ∧ choices {| choices := [ {| message_content := Some (lit "  Hi there ") |} ] |}
    = {| message_content := Some (lit "  Hi there ") |} :: []
  ∧ message_content {| message_content := Some (lit "  Hi there ") |}
    = Some (lit "  Hi there ")
  ∧ ∃ text w',
      generate_response (stub_returning (lit "  Hi there ")) (lit "Hello")
        1%positive demo_world
      = (Ok text, w')
      ∧ calls w' = calls demo_world ++ [built_request (lit "Hello") demo_history]
      ∧ text = strip (lit "  Hi there ")
      ∧ trimmed_of (lit "  Hi there ") text
      ∧ ∀ t, trimmed_of (lit "  Hi there ") t → t = text.
Proof.
  split; [reflexivity|]. split; [reflexivity|]. split; [reflexivity|].
  split; [reflexivity|].
  apply (generate_response_success (stub_returning (lit "  Hi there ")) (lit "Hello")
           1%positive demo_world demo_history
           {| choices := [ {| message_content := Some (lit "  Hi there ") |} ] |}
           {| message_content := Some (lit "  Hi there ") |} []
           (lit "  Hi there ")); reflexivity.
Defined.

(** C10. [generate_response] never mutates its [conversation_history]
    argument: the list it is given, and every other list object that
    exists when it is called, has the same elements after the call,
    whatever the completion call does. *)
Theorem generate_response_preserves_history service prompt h w :
  is_Some (heap w !! h) →
  ∀ l xs, heap w !! l = Some xs →
          heap (snd (generate_response service prompt h w)) !! l = Some xs.
Proof.
  intros [history Hh] l xs Hl.
  destruct (generate_response_effect service prompt h w history Hh)
    as (text & w' & Hrun & Hheap & _).
  rewrite Hrun. simpl. rewrite Hheap.
  rewrite lookup_insert_ne; [exact Hl|].
  intros E. symmetry in E. revert E. apply fresh_loc_ne. eauto.
Qed.

Lemma generate_response_preserves_history_witness :
  is_Some (heap demo_world !! 1%positive)
  ∧ heap demo_world !! 1%positive = Some demo_history
  ∧ heap (snd (generate_response (stub_raising (lit "Connection reset")) (lit "Hello")
                 1%positive demo_world)) !! 1%positive
    = Some demo_history.
Proof.
  split; [exists demo_history; reflexivity|]. split; [reflexivity|].
  apply (generate_response_preserves_history (stub_raising (lit "Connection reset"))
           (lit "Hello") 1%positive demo_world).
  - exists demo_history. reflexivity.
  - reflexivity.
Defined.

Lemma error_text_contains_marker (message : pystr) :
  str_contains (lit "Error:") (lit "Error: " ++ message) = true.
Proof. apply (str_contains_prefix (lit "Error:") (32 :: message)). Qed.

(** C2. If the completion call raises, [generate_response] does not let
    the exception through: it returns a text that contains ["Error:"], and
    in the chatbot flow the conversation still gains the user turn and
    exactly one assistant turn, which carries that text.  The chatbot flow
    is that of a run in which credential resolution raises nothing, so
    that the section is reached. *)
Theorem completion_failure_is_answered service :
  (∀ prompt h w history e,
     heap w !! h = Some history →
     service (api_key w) (built_request prompt history) = Raises e →
     ∃ text w',
       generate_response service prompt h w = (Ok text, w')
       ∧ calls w' = calls w ++ [built_request prompt history]
       ∧ text = lit "Error: " ++ exn_str e
       ∧ str_contains (lit "Error:") text = true)
  ∧ (∀ i w old text e r w',
       resolution_completes i w →
       selected i = Chatbot → submitted i = Some text → truthy text = true →
       conversation w = Some old →
       run_page service i w = (r, w') →
       service (api_key w') (built_request text (old ++ [user_turn text])) = Raises e →
       r = Ok tt
       ∧ calls w' = calls w ++ [built_request text (old ++ [user_turn text])]
       ∧ ∃ answer,
           str_contains (lit "Error:") answer = true
           ∧ conversation w' = Some (old ++ [user_turn text; assistant_turn answer])
           ∧ length (filter (λ t, role t = lit "assistant") (old ++ [user_turn text; assistant_turn answer]))
             = S (length (filter (λ t, role t = lit "assistant") old))).
Proof.
  split.
  - intros prompt h w history e Hh Hs.
    destruct (generate_response_effect service prompt h w history Hh)
      as (text & w' & Hrun & _ & _ & _ & _ & _ & Hcalls & Hraise & _).
    destruct (Hraise e Hs) as [-> _].
    exists (lit "Error: " ++ exn_str e), w'.
    split; [exact Hrun|]. split; [exact Hcalls|].
    split; [reflexivity|]. apply error_text_contains_marker.
  - intros i w old text e r w' Hres Hm Hin Ht Hc Hrun Hs.
    destruct (chat_submitted service i w old text r w' Hres Hm Hin Ht Hc Hrun)
      as (-> & response & Hconv & Hcalls & Hraise & _).
    destruct (Hraise e Hs) as [-> _].
    split; [reflexivity|]. split; [exact Hcalls|].
    exists (lit "Error: " ++ exn_str e).
    split; [apply error_text_contains_marker|]. split; [exact Hconv|].
    rewrite filter_app, length_app. 
    replace (filter (λ t, role t = lit "assistant")
               [user_turn text; assistant_turn (lit "Error: " ++ exn_str e)])
      with [assistant_turn (lit "Error: " ++ exn_str e)] by reflexivity.
    simpl. lia.
Qed.

Lemma completion_failure_is_answered_witness :
  resolution_completes hello_event demo_world
  ∧ selected hello_event = Chatbot
  ∧ submitted hello_event = Some (lit "Hello")
  ∧ truthy (lit "Hello") = true
  ∧ conversation demo_world = Some demo_history
  ∧ failing_service (api_key (snd (run_page failing_service hello_event demo_world)))
      (built_request (lit "Hello") (demo_history ++ [user_turn (lit "Hello")]))
    = Raises connection_reset
  ∧ fst (run_page failing_service hello_event demo_world) = Ok tt
  ∧ calls (snd (run_page failing_service hello_event demo_world))
    = calls demo_world
      ++ [built_request (lit "Hello") (demo_history ++ [user_turn (lit "Hello")])]
  ∧ ∃ answer,
      str_contains (lit "Error:") answer = true
      ∧ conversation (snd (run_page failing_service hello_event demo_world))
        = Some (demo_history ++ [user_turn (lit "Hello"); assistant_turn answer])
      ∧ length (filter (λ t, role t = lit "assistant")
                  (demo_history ++ [user_turn (lit "Hello"); assistant_turn answer]))
        = S (length (filter (λ t, role t = lit "assistant") demo_history)).
Proof.
  split; [reflexivity|].
  split; [reflexivity|]. split; [reflexivity|]. split; [reflexivity|].
  split; [reflexivity|]. split; [reflexivity|].
  destruct (completion_failure_is_answered failing_service) as [_ H].
  apply (H hello_event demo_world demo_history (lit "Hello") connection_reset
           (fst (run_page failing_service hello_event demo_world))
           (snd (run_page failing_service hello_event demo_world)));
    [reflexivity | reflexivity | reflexivity | reflexivity | reflexivity
    | apply surjective_pairing | reflexivity].
Defined.

(** C3. In the chatbot flow the new message is appended to the
    conversation before [generate_response] is called with that same list
    as history, so the request sent to the completion service ends with the
    turn [{role: user, content: S}] twice.  The run is one in which
    credential resolution raises nothing, so that the section is reached. *)
Theorem user_turn_is_sent_twice service i w old text r w' :
  resolution_completes i w →
  selected i = Chatbot → submitted i = Some text → truthy text = true →
  conversation w = Some old →
  run_page service i w = (r, w') →
  ∃ req,
    calls w' = calls w ++ [req]
    ∧ req = built_request text (old ++ [user_turn text])
    ∧ messages req = [system_turn] ++ old ++ [user_turn text; user_turn text].
Proof.
  intros Hres Hm Hin Ht Hc Hrun.
  destruct (chat_submitted service i w old text r w' Hres Hm Hin Ht Hc Hrun)
    as (_ & response & _ & Hcalls & _).
  exists (built_request text (old ++ [user_turn text])).
  split; [exact Hcalls|]. split; [reflexivity|].
  simpl. rewrite <- app_assoc. reflexivity.
Qed.

Lemma user_turn_is_sent_twice_witness :
  resolution_completes hello_event demo_world
  ∧ selected hello_event = Chatbot
  ∧ submitted hello_event = Some (lit "Hello")
  ∧ truthy (lit "Hello") = true
  ∧ conversation demo_world = Some demo_history
  ∧ ∃ req,
      calls (snd (run_page failing_service hello_event demo_world))
        = calls demo_world ++ [req]
      ∧ req = built_request (lit "Hello") (demo_history ++ [user_turn (lit "Hello")])
      ∧ messages req
        = [system_turn] ++ demo_history ++ [user_turn (lit "Hello"); user_turn (lit "Hello")].
Proof.
  split; [reflexivity|].
  split; [reflexivity|]. split; [reflexivity|]. split; [reflexivity|].
  split; [reflexivity|].
  apply (user_turn_is_sent_twice failing_service hello_event demo_world demo_history
           (lit "Hello")
           (fst (run_page failing_service hello_event demo_world))
           (snd (run_page failing_service hello_event demo_world)));
    [reflexivity | reflexivity | reflexivity | reflexivity | reflexivity
    | apply surjective_pairing].
Defined.

(** C6. Processing one user message appends a user turn then an
    assistant turn: the conversation grows by exactly 2 and every turn
    stored before keeps its position and its value.  The run is one in
    which credential resolution raises nothing, so that the message is
    processed. *)
Theorem submit_appends_two_turns service i w old text r w' :
  resolution_completes i w →
  selected i = Chatbot → submitted i = Some text → truthy text = true →
  conversation w = Some old →
  run_page service i w = (r, w') →
  r = Ok tt
  ∧ ∃ new response,
      conversation w' = Some new
      ∧ new = old ++ [user_turn text; assistant_turn response]
      ∧ length new = (length old + 2)%nat
      ∧ ∀ k t, old !! k = Some t → new !! k = Some t.
Proof.
  intros Hres Hm Hin Ht Hc Hrun.
  destruct (chat_submitted service i w old text r w' Hres Hm Hin Ht Hc Hrun)
    as (-> & response & Hconv & _).
  split; [reflexivity|].
  exists (old ++ [user_turn text; assistant_turn response]), response.
  split; [exact Hconv|]. split; [reflexivity|]. split.
  - rewrite length_app. reflexivity.
  - intros k t Hk. apply lookup_app_l_Some. exact Hk.
Qed.

Lemma submit_appends_two_turns_witness :
  resolution_completes hello_event demo_world
  ∧ selected hello_event = Chatbot
  ∧ submitted hello_event = Some (lit "Hello")
  ∧ truthy (lit "Hello") = true
  ∧ conversation demo_world = Some demo_history
  ∧ fst (run_page (stub_returning (lit "Hi there")) hello_event demo_world) = Ok tt
  ∧ ∃ new response,
      conversation (snd (run_page (stub_returning (lit "Hi there")) hello_event demo_world))
        = Some new
      ∧ new = demo_history ++ [user_turn (lit "Hello"); assistant_turn response]
      ∧ length new = (length demo_history + 2)%nat
      ∧ ∀ k t, demo_history !! k = Some t → new !! k = Some t.
Proof.
  split; [reflexivity|].
  split; [reflexivity|]. split; [reflexivity|]. split; [reflexivity|].
  split; [reflexivity|].
  apply (submit_appends_two_turns (stub_returning (lit "Hi there")) hello_event demo_world
           demo_history (lit "Hello")
           (fst (run_page (stub_returning (lit "Hi there")) hello_event demo_world))
           (snd (run_page (stub_returning (lit "Hi there")) hello_event demo_world)));
    [reflexivity | reflexivity | reflexivity | reflexivity | reflexivity
    | apply surjective_pairing].
Defined.

(** C9. End to end: from the freshly seeded conversation, which holds only
    the default greeting, submitting ["Hello"] with the completion call
    stubbed to return ["Hi there"] leaves the conversation equal to
    [assistant: greeting; user: "Hello"; assistant: "Hi there"], in a run
    in which credential resolution raises nothing. *)
Theorem end_to_end_hello i w r w' :
  resolution_completes i w →
  selected i = Chatbot →
  submitted i = Some (lit "Hello") →
  conversation w = Some [greeting] →
  run_page (stub_returning (lit "Hi there")) i w = (r, w') →
  r = Ok tt
  ∧ conversation w'
    = Some [ {| role := lit "assistant";
                content := lit "Hi, I'm your portfolio assistant! How can I help you today?" |};
             {| role := lit "user"; content := lit "Hello" |};
             {| role := lit "assistant"; content := lit "Hi there" |} ].
Proof.
  intros Hres Hm Hin Hc Hrun.
  destruct (chat_submitted _ i w [greeting] (lit "Hello") r w' Hres Hm Hin eq_refl Hc Hrun)
    as (-> & response & Hconv & _ & _ & Hreturn).
  split; [reflexivity|].
  destruct (Hreturn _ _ _ _ eq_refl eq_refl eq_refl) as [-> _].
  exact Hconv.
Qed.

Lemma end_to_end_hello_witness :
  resolution_completes hello_event seeded_world
  ∧ selected hello_event = Chatbot
  ∧ submitted hello_event = Some (lit "Hello")
  ∧ conversation seeded_world = Some [greeting]
  ∧ fst (run_page (stub_returning (lit "Hi there")) hello_event seeded_world) = Ok tt
  ∧ conversation (snd (run_page (stub_returning (lit "Hi there")) hello_event seeded_world))
    = Some [ {| role := lit "assistant";
                content := lit "Hi, I'm your portfolio assistant! How can I help you today?" |};
             {| role := lit "user"; content := lit "Hello" |};
             {| role := lit "assistant"; content := lit "Hi there" |} ].
Proof.
  split; [vm_compute; reflexivity|].
  split; [reflexivity|]. split; [reflexivity|]. split; [vm_compute; reflexivity|].
  apply (end_to_end_hello hello_event seeded_world
           (fst (run_page (stub_returning (lit "Hi there")) hello_event seeded_world))
           (snd (run_page (stub_returning (lit "Hi there")) hello_event seeded_world))).
  - vm_compute. reflexivity.
  - reflexivity.
  - reflexivity.
  - vm_compute. reflexivity.
  - apply surjective_pairing.
Defined.

(** Whatever a run of the page does, a conversation that exists is kept
    and only grows at its end; the run completes when credential
    resolution does. *)
Lemma run_page_keeps_conversation service i w c r w' :
  conversation w = Some c →
  run_page service i w = (r, w') →
  (resolution_completes i w → r = Ok tt)
  ∧ ∃ added, conversation w' = Some (c ++ added)
             ∧ (selected i ≠ Chatbot ∨ submitted i = None → added = []).
Proof.
  intros Hc Hrun.
  destruct (conversation_inv w c Hc) as (l & Hs & Hh).
  destruct (resolution_completes_dec i w) as [Hres|Hres].
  2:{ destruct (run_page_stopped service i w Hres)
        as (e & w0 & Hrun0 & Hheap & Hs' & _).
      rewrite Hrun in Hrun0. injection Hrun0 as -> <-.
      split; [intros H; contradiction|]. exists []. split; [|reflexivity].
      rewrite app_nil_r. apply (conversation_intro _ l); [rewrite Hs'; exact Hs|].
      rewrite Hheap. exact Hh. }
  destruct (decide (selected i = Chatbot)) as [Hm|Hm].
  - destruct (run_page_chat service i w l Hres Hm Hs) as (w0 & Hrun0 & Hs' & Heff).
    rewrite Hrun in Hrun0. injection Hrun0 as -> <-.
    split; [reflexivity|].
    assert (Hidle : heap w' = heap w ∧ calls w' = calls w ∧ log w' = log w →
              ∃ added, conversation w' = Some (c ++ added)
                       ∧ (selected i ≠ Chatbot ∨ submitted i = None → added = [])).
    { intros (Hheap & _). exists []. split; [|reflexivity].
      rewrite app_nil_r. apply (conversation_intro _ l); [rewrite Hs'; exact Hs|].
      rewrite Hheap. exact Hh. }
    unfold chat_effect in Heff. rewrite Hh in Heff. simpl default in Heff.
    destruct (submitted i) as [text|]; [|exact (Hidle Heff)].
    destruct (truthy text); [|exact (Hidle Heff)].
    destruct Heff as (response & Hheap & _).
    exists [user_turn text; assistant_turn response]. split.
    + apply (conversation_intro _ l); [rewrite Hs'; exact Hs|].
      rewrite Hheap. apply lookup_insert_eq.
    + intros [Hne|Hnone]; [contradiction | discriminate].
  - destruct (run_page_static service i w Hres Hm) as (w0 & Hrun0 & Hheap & Hs' & _).
    rewrite Hrun in Hrun0. injection Hrun0 as -> <-.
    split; [reflexivity|]. exists []. split; [|reflexivity].
    rewrite app_nil_r. apply (conversation_intro _ l); [rewrite Hs'; exact Hs|].
    rewrite Hheap. exact Hh.
Qed.

(** C7. The session store is initialised lazily: on first use the
    conversation is set to exactly the seeded assistant greeting, and on
    every later run of the page an existing conversation is left as it is:
    the seeding never overwrites it.  A run completes whenever its
    credential resolution does. *)
Theorem session_lazily_initialised :
  (∀ w, session_state w !! "messages" = None →
        ∃ w', init_messages w = (Ok tt, w') ∧ conversation w' = Some [greeting])
  ∧ (∀ w, is_Some (session_state w !! "messages") → init_messages w = (Ok tt, w))
  ∧ (∀ service i w r w',
       resolution_completes i w →
       selected i = Chatbot → submitted i = None →
       session_state w !! "messages" = None →
       run_page service i w = (r, w') →
       r = Ok tt ∧ conversation w' = Some [greeting])
  ∧ (∀ service i w c r w',
       conversation w = Some c →
       run_page service i w = (r, w') →
       (resolution_completes i w → r = Ok tt)
       ∧ ∃ added, conversation w' = Some (c ++ added)
                  ∧ (selected i ≠ Chatbot ∨ submitted i = None → added = [])).
Proof.
  split; [|split; [|split]].
  - intros w Hn. rewrite (init_messages_absent w Hn). eexists. split; [reflexivity|].
    unfold conversation. simpl. rewrite !lookup_insert_eq. reflexivity.
  - intros w [l Hl]. apply (init_messages_present w l Hl).
  - intros service i w r w' Hres Hm Hin Hn Hrun.
    destruct (run_page_chat_new service i w Hres Hm Hn) as (w0 & Hrun0 & Hs' & Heff).
    rewrite Hrun in Hrun0. injection Hrun0 as -> <-.
    split; [reflexivity|].
    unfold chat_effect in Heff. rewrite Hin in Heff. destruct Heff as (Hheap & _).
    unfold conversation. rewrite Hs', Hheap, !lookup_insert_eq. reflexivity.
  - apply run_page_keeps_conversation.
Qed.

Lemma session_lazily_initialised_witness :
  session_state initial_world !! "messages" = None
  ∧ (∃ w', init_messages initial_world = (Ok tt, w') ∧ conversation w' = Some [greeting])
  ∧ is_Some (session_state demo_world !! "messages")
  ∧ init_messages demo_world = (Ok tt, demo_world).
Proof.
  destruct session_lazily_initialised as (Hfirst & Hlater & _).
  split; [reflexivity|]. split; [apply Hfirst; reflexivity|].
  split; [exists 1%positive; reflexivity|].
  apply Hlater. exists 1%positive. reflexivity.
Defined.

(** ** The session invariant *)

Lemma user_turn_stored text : user_or_assistant (user_turn text).
Proof. left. reflexivity. Qed.

Lemma assistant_turn_stored text : user_or_assistant (assistant_turn text).
Proof. right. reflexivity. Qed.

Lemma system_turn_not_stored : ¬ user_or_assistant system_turn.
Proof. intros [H|H]; vm_compute in H; discriminate. Qed.

Lemma chat_effect_invariant service input l hp w w' rest :
  hp !! l = Some (greeting :: rest) →
  Forall user_or_assistant rest →
  Forall (λ req, head (messages req) = Some system_turn) (calls w) →
  chat_effect service input l hp w w' →
  (∃ rest', heap w' !! l = Some (greeting :: rest') ∧ Forall user_or_assistant rest')
  ∧ Forall (λ req, head (messages req) = Some system_turn) (calls w').
Proof.
  intros Hl Hrest Hcalls Heff.
  assert (Hidle : heap w' = hp ∧ calls w' = calls w ∧ log w' = log w →
            (∃ rest', heap w' !! l = Some (greeting :: rest') ∧ Forall user_or_assistant rest')
            ∧ Forall (λ req, head (messages req) = Some system_turn) (calls w')).
  { intros (-> & -> & _). split; [exists rest; split; assumption | assumption]. }
  unfold chat_effect in Heff. rewrite Hl in Heff. simpl default in Heff.
  destruct input as [text|]; [|exact (Hidle Heff)].
  destruct (truthy text); [|exact (Hidle Heff)].
  destruct Heff as (response & -> & -> & _).
  split.
  - exists (rest ++ [user_turn text; assistant_turn response]).
    split; [apply lookup_insert_eq|].
    apply Forall_app. split; [exact Hrest|].
    constructor; [apply user_turn_stored|].
    constructor; [apply assistant_turn_stored | constructor].
  - apply Forall_app. split; [exact Hcalls|].
    constructor; [reflexivity | constructor].
Qed.

Lemma run_page_invariant service i w r w' :
  session_invariant w → run_page service i w = (r, w') → session_invariant w'.
Proof.
  intros [Hconv Hcalls] Hrun.
  destruct (resolution_completes_dec i w) as [Hres|Hres].
  2:{ destruct (run_page_stopped service i w Hres)
        as (e & w0 & Hrun0 & Hheap & Hs' & Hc & _).
      rewrite Hrun in Hrun0. injection Hrun0 as -> <-.
      split.
      - intros l Hl. rewrite Hheap. apply Hconv. rewrite <- Hs'. exact Hl.
      - rewrite Hc. exact Hcalls. }
  destruct (decide (selected i = Chatbot)) as [Hm|Hm].
  - destruct (session_state w !! "messages") as [l|] eqn:Hs.
    + destruct (run_page_chat service i w l Hres Hm Hs) as (w0 & Hrun0 & Hs' & Heff).
      rewrite Hrun in Hrun0. injection Hrun0 as -> <-.
      destruct (Hconv l eq_refl) as (rest & Hl & Hrest).
      destruct (chat_effect_invariant _ _ _ _ _ _ _ Hl Hrest Hcalls Heff) as [H1 H2].
      split; [|exact H2].
      intros l' Hl'. rewrite Hs', Hs in Hl'. injection Hl' as <-. exact H1.
    + destruct (run_page_chat_new service i w Hres Hm Hs) as (w0 & Hrun0 & Hs' & Heff).
      rewrite Hrun in Hrun0. injection Hrun0 as -> <-.
      destruct (chat_effect_invariant _ _ _ _ _ _ [] (lookup_insert_eq _ _ _)
                  (Forall_nil_2 _) Hcalls Heff) as [H1 H2].
      split; [|exact H2].
      intros l' Hl'. rewrite Hs', lookup_insert_eq in Hl'. injection Hl' as <-. exact H1.
  - destruct (run_page_static service i w Hres Hm) as (w0 & Hrun0 & Hheap & Hs' & Hc & _).
    rewrite Hrun in Hrun0. injection Hrun0 as -> <-.
    split.
    + intros l Hl. rewrite Hheap. apply Hconv. rewrite <- Hs'. exact Hl.
    + rewrite Hc. exact Hcalls.
Qed.

Lemma reachable_invariant w : reachable w → session_invariant w.
Proof.
  induction 1 as [w Hs Hc | service i w r w' _ IH Hrun].
  - split.
    + intros l Hl. rewrite Hs in Hl. rewrite lookup_empty in Hl. discriminate.
    + rewrite Hc. constructor.
  - exact (run_page_invariant service i w r w' IH Hrun).
Qed.

(** C5. Every turn stored in the conversation has role user or assistant:
    the system turn is built only inside the request to the completion
    service, where it comes first, and is never appended to the
    conversation, which starts with the seeded assistant greeting. *)
Theorem conversation_holds_no_system_turn w c :
  reachable w →
  conversation w = Some c →
  Forall user_or_assistant c
  ∧ (system_turn ∉ c)
  ∧ head c = Some greeting
  ∧ Forall (λ req, head (messages req) = Some system_turn) (calls w).
Proof.
  intros Hr Hc.
  destruct (reachable_invariant w Hr) as [Hconv Hcalls].
  destruct (conversation_inv w c Hc) as (l & Hs & Hh).
  destruct (Hconv l Hs) as (rest & Hl & Hrest).
  rewrite Hh in Hl. injection Hl as ->.
  assert (Hall : Forall user_or_assistant (greeting :: rest)).
  { constructor; [apply assistant_turn_stored | exact Hrest]. }
  split; [exact Hall|]. split; [|split; [reflexivity | exact Hcalls]].
  intros Hin. rewrite Forall_forall in Hall.
  exact (system_turn_not_stored (Hall _ Hin)).
Qed.

Lemma conversation_holds_no_system_turn_witness :
  reachable (snd (run_page (stub_returning (lit "Hi there")) hello_event seeded_world))
  ∧ conversation (snd (run_page (stub_returning (lit "Hi there")) hello_event seeded_world))
    = Some [greeting; user_turn (lit "Hello"); assistant_turn (lit "Hi there")]
  ∧ Forall user_or_assistant [greeting; user_turn (lit "Hello"); assistant_turn (lit "Hi there")]
  ∧ (system_turn ∉ [greeting; user_turn (lit "Hello"); assistant_turn (lit "Hi there")]).
Proof.
  assert (Hreach : reachable (snd (run_page (stub_returning (lit "Hi there")) hello_event
                                     seeded_world))).
  { eapply reachable_run; [|apply surjective_pairing].
    eapply reachable_run; [|apply surjective_pairing].
    apply reachable_new; reflexivity. }
  assert (Hconv : conversation (snd (run_page (stub_returning (lit "Hi there")) hello_event
                                       seeded_world))
                  = Some [greeting; user_turn (lit "Hello"); assistant_turn (lit "Hi there")]).
  { vm_compute. reflexivity. }
  split; [exact Hreach|]. split; [exact Hconv|].
  destruct (conversation_holds_no_system_turn _ _ Hreach Hconv) as (H1 & H2 & _).
  split; assumption.
Defined.

(** ** Credential resolution *)

Example environment_variable_is_used :
  api_key (snd (run_page failing_service only_environment initial_world))
  = Some (SStr (lit "sk-env")).
Proof. vm_compute. reflexivity. Qed.

Example flat_secret_is_used :
  api_key (snd (run_page failing_service only_flat_secret initial_world))
  = Some (SStr (lit "sk-flat")).
Proof. vm_compute. reflexivity. Qed.

Example nested_secret_is_used :
  api_key (snd (run_page failing_service only_nested_secret initial_world))
  = Some (SStr (lit "sk-nested")).
Proof. vm_compute. reflexivity. Qed.

Example environment_variable_wins :
  api_key (snd (run_page failing_service all_three_sources initial_world))
  = Some (SStr (lit "sk-env")).
Proof. vm_compute. reflexivity. Qed.

Example no_credential_shows_banner :
  api_key (snd (run_page failing_service no_credential initial_world)) = None
  ∧ take 2 (ui (snd (run_page failing_service no_credential initial_world)))
    = [page_config; no_key_banner].
Proof. vm_compute. split; reflexivity. Qed.

(** With the key in the environment the store is not read: the run
    completes without a [secrets.toml]. *)
Example environment_needs_no_secrets_file :
  fst (run_page failing_service environment_without_file initial_world) = Ok tt
  ∧ api_key (snd (run_page failing_service environment_without_file initial_world))
    = Some (SStr (lit "sk-env")).
Proof. vm_compute. split; reflexivity. Qed.

(** A table named like the key is taken by line 26 and assigned as it
    is, without banner. *)
Example table_named_like_key_is_assigned :
  api_key (snd (run_page failing_service table_named_like_key initial_world))
  = Some (STable [ ("value", SStr (lit "sk-inner")) ])
  ∧ no_key_banner ∉ ui (snd (run_page failing_service table_named_like_key initial_world)).
Proof.
  split; [vm_compute; reflexivity|].
  intros H. vm_compute in H.
  repeat (apply elem_of_cons in H; destruct H as [H|H]; [discriminate|]).
  inversion H.
Qed.

(** A string secret named [general]: line 28 tests it for the key name
    as a substring; line 29 raises when it holds it, line 31 is reached
    when it does not. *)
Example general_string_with_key_name_raises :
  ∃ message,
    fst (run_page failing_service general_is_key_name initial_world)
    = Exc {| exn_class := "TypeError"; exn_str := message |}.
Proof. eexists. vm_compute. reflexivity. Qed.

Example general_string_without_key_name_shows_banner :
  fst (run_page failing_service general_is_other_text initial_world) = Ok tt
  ∧ take 2 (ui (snd (run_page failing_service general_is_other_text initial_world)))
    = [page_config; no_key_banner].
Proof. vm_compute. split; reflexivity. Qed.

(** C4. The code breaks the claim in a run without [secrets.toml] and
    without the key in the environment.  None of the three sources holds
    the key, so lines 30-31 should show the banner and the page should be
    rendered; instead line 26 raises while it reads the store: the run
    ends with that exception, no credential is assigned, and the page
    holds the configuration only, neither the banner nor any section. *)
Theorem credential_resolution_without_secrets_file :
  (environ initial_world ∪ dotenv no_secrets_file_event) !! "OPENAI_API_KEY" = None
  ∧ st_secrets no_secrets_file_event = None
  ∧ fst (run_page failing_service no_secrets_file_event initial_world) = Exc no_secrets_file
  ∧ api_key (snd (run_page failing_service no_secrets_file_event initial_world)) = None
  ∧ ui (snd (run_page failing_service no_secrets_file_event initial_world)) = [page_config]
  ∧ no_key_banner ∉ ui (snd (run_page failing_service no_secrets_file_event initial_world)).
Proof.
  split; [reflexivity|]. split; [reflexivity|].
  split; [vm_compute; reflexivity|]. split; [vm_compute; reflexivity|].
  split; [vm_compute; reflexivity|].
  intros H. vm_compute in H.
  apply elem_of_cons in H. destruct H as [H|H]; [discriminate | inversion H].
Qed.

(** X13. Where the store can be read, credential resolution tries three
    sources in order: the [OPENAI_API_KEY] environment variable, the
    top-level entry of that name in the secret store, then the entry of
    that name in the store's top-level table [general]; the first source
    that holds the key determines the value assigned to [openai.api_key],
    and with the key in the environment the store is not read at all.  If
    a secret store exists, none of the three holds the key and [general]
    is absent or a table, no credential is assigned, the error banner is
    shown, and the rest of the page is rendered all the same. *)
Theorem credential_resolution_order service i w r w' :
  run_page service i w = (r, w') →
  let env := environ w ∪ dotenv i in
  let found := λ v body,
    r = Ok tt
    ∧ api_key w' = Some v
    ∧ ui w' = [page_config; page_style; sidebar_title; sidebar_radio]
              ++ st_title (section_title (selected i)) :: body in
  ∃ body,
    (∀ v, env !! "OPENAI_API_KEY" = Some v → found (SStr v) body)
    ∧ (∀ store v,
         env !! "OPENAI_API_KEY" = None →
         st_secrets i = Some store →
         table_get "OPENAI_API_KEY" store = Some v → found v body)
    ∧ (∀ store general v,
         env !! "OPENAI_API_KEY" = None →
         st_secrets i = Some store →
         table_get "OPENAI_API_KEY" store = None →
         table_get "general" store = Some (STable general) →
         table_get "OPENAI_API_KEY" general = Some v → found v body)
    ∧ (∀ store,
         env !! "OPENAI_API_KEY" = None →
         st_secrets i = Some store →
         table_get "OPENAI_API_KEY" store = None →
         (table_get "general" store = None
          ∨ ∃ general, table_get "general" store = Some (STable general)
                       ∧ table_get "OPENAI_API_KEY" general = None) →
         r = Ok tt
         ∧ api_key w' = api_key w
         ∧ ui w' = [page_config; no_key_banner; page_style; sidebar_title; sidebar_radio]
                   ++ st_title (section_title (selected i)) :: body).
Proof.
  intros Hrun env found.
  destruct (resolution_completes_dec i w) as [Hres|Hres].
  - destruct (run_page_renders service i w Hres) as (w0 & body & Hrun0 & _ & Hkey).
    rewrite Hrun in Hrun0. injection Hrun0 as -> <-.
    exists body. unfold first_match in Hkey. fold env in Hkey. subst found. cbv beta.
    split; [|split; [|split]].
    + intros v Hv. rewrite Hv in Hkey. split; [reflexivity | exact Hkey].
    + intros store v He Hst Ht. rewrite He, Hst, Ht in Hkey.
      split; [reflexivity | exact Hkey].
    + intros store general v He Hst Ht Hg Hv. rewrite He, Hst, Ht, Hg, Hv in Hkey.
      split; [reflexivity | exact Hkey].
    + intros store He Hst Ht Hg. rewrite He, Hst, Ht in Hkey.
      destruct Hg as [Hg | (general & Hg & Hv)].
      * rewrite Hg in Hkey. split; [reflexivity | exact Hkey].
      * rewrite Hg, Hv in Hkey. split; [reflexivity | exact Hkey].
  - exists []. subst found. cbv beta.
    split; [|split; [|split]].
    + intros v Hv. exfalso. apply Hres, resolution_completes_when. left. eauto.
    + intros store v He Hst Ht. exfalso. apply Hres, resolution_completes_when.
      right. exists store. split; [exact Hst|]. left. eauto.
    + intros store general v He Hst Ht Hg Hv. exfalso.
      apply Hres, resolution_completes_when.
      right. exists store. split; [exact Hst|]. right. right. eauto.
    + intros store He Hst Ht Hg. exfalso. apply Hres, resolution_completes_when.
      right. exists store. split; [exact Hst|]. right.
      destruct Hg as [Hg | (general & Hg & _)]; [left; exact Hg | right; eauto].
Qed.

Lemma credential_resolution_order_witness :
  run_page failing_service no_credential initial_world
  = (fst (run_page failing_service no_credential initial_world),
     snd (run_page failing_service no_credential initial_world))
  ∧ fst (run_page failing_service no_credential initial_world) = Ok tt
  ∧ ∃ body,
      api_key (snd (run_page failing_service no_credential initial_world))
      = api_key initial_world
      ∧ ui (snd (run_page failing_service no_credential initial_world))
        = [page_config; no_key_banner; page_style; sidebar_title; sidebar_radio]
          ++ st_title (section_title PortfolioNavigation) :: body.
Proof.
  split; [apply surjective_pairing|].
  destruct (credential_resolution_order failing_service no_credential initial_world
              (fst (run_page failing_service no_credential initial_world))
              (snd (run_page failing_service no_credential initial_world))
              (surjective_pairing _))
    as (body & _ & _ & _ & Hnone).
  destruct (Hnone [] eq_refl eq_refl eq_refl (or_introl eq_refl)) as (Hok & Hkey & Hui).
  split; [exact Hok|]. exists body. split; [exact Hkey | exact Hui].
Defined.

(** * Further properties of the code *)

Opaque lit.

(** ** [display_chat_messages] (lines 82-87) *)

Lemma for_each_bubbles msgs w :
  for_each msgs (λ msg,
    if bool_decide (role msg = lit "user") then
      emit (st_markdown (lit "<div class='user-message'><b>You:</b> " ++ content msg ++ lit "</div>") true)
    else if bool_decide (role msg = lit "assistant") then
      emit (st_markdown (lit "<div class='assistant-message'><b>Assistant:</b> " ++ content msg ++ lit "</div>") true)
    else ret tt) w
  = (Ok tt, set_ui (λ u, u ++ (msgs ≫= bubble)) w).
Proof.
  revert w. induction msgs as [|msg msgs IH]; intros w.
  - simpl. unfold ret. rewrite set_ui_nil. reflexivity.
  - cbn [for_each]. rewrite bind_cons. unfold bubble at 1.
    destruct (bool_decide (role msg = lit "user")).
    + rewrite bind_emit, IH, set_ui_app. reflexivity.
    + destruct (bool_decide (role msg = lit "assistant")).
      * rewrite bind_emit, IH, set_ui_app. reflexivity.
      * unfold bind, ret. rewrite IH. reflexivity.
Qed.

Lemma display_chat_messages_bubbles l w :
  display_chat_messages l w
  = (Ok tt, set_ui (λ u, u ++ (default [] (heap w !! l) ≫= bubble)) w).
Proof.
  unfold display_chat_messages. unfold bind at 1. unfold read_list.
  apply for_each_bubbles.
Qed.

Lemma bubbles_filter msgs :
  Forall2 (λ t e, ∃ opening, e = st_markdown (opening ++ content t ++ lit "</div>") true)
          (filter user_or_assistant msgs) (msgs ≫= bubble).
Proof.
  induction msgs as [|msg msgs IH]; [constructor|].
  rewrite bind_cons. unfold bubble at 1.
  case_bool_decide as Hu.
  - rewrite filter_cons_True by (left; exact Hu).
    constructor; [eexists; reflexivity | exact IH].
  - case_bool_decide as Ha.
    + rewrite filter_cons_True by (right; exact Ha).
      constructor; [eexists; reflexivity | exact IH].
    + rewrite filter_cons_False by (intros [H|H]; contradiction).
      exact IH.
Qed.

Lemma str_contains_app_r needle before s :
  str_contains needle s = true → str_contains needle (before ++ s) = true.
Proof.
  intros H. induction before as [|c before IH]; [exact H|].
  simpl. rewrite IH. apply orb_true_r.
Qed.

Lemma str_contains_middle needle before after :
  str_contains needle (before ++ needle ++ after) = true.
Proof. apply str_contains_app_r, str_contains_prefix. Qed.

(** X1. [display_chat_messages] changes nothing but the page; it renders,
    in the order of the list, one markdown element with raw HTML enabled
    for each user or assistant message, whose body holds the content of the
    message verbatim, and nothing for a message of any other role. *)
Theorem display_renders_user_and_assistant_turns l w msgs :
  heap w !! l = Some msgs →
  ∃ es,
    display_chat_messages l w = (Ok tt, set_ui (λ u, u ++ es) w)
    ∧ Forall2 (λ t e, ∃ opening,
                 e = st_markdown (opening ++ content t ++ lit "</div>") true
                 ∧ str_contains (content t) (opening ++ content t ++ lit "</div>") = true)
              (filter user_or_assistant msgs) es.
Proof.
  intros Hl. exists (msgs ≫= bubble). split.
  - rewrite display_chat_messages_bubbles, Hl. reflexivity.
  - eapply Forall2_impl; [apply bubbles_filter|].
    intros t e [opening ->]. exists opening. split; [reflexivity|].
    apply str_contains_middle.
Qed.

Transparent lit.

Lemma display_renders_user_and_assistant_turns_witness :
  heap mixed_world !! 1%positive = Some mixed_history
  ∧ filter user_or_assistant mixed_history
    = [user_turn (lit "<b>Hello</b>"); assistant_turn (lit "Hi there")]
  ∧ ∃ es,
      display_chat_messages 1%positive mixed_world
      = (Ok tt, set_ui (λ u, u ++ es) mixed_world)
      ∧ Forall2 (λ t e, ∃ opening,
                   e = st_markdown (opening ++ content t ++ lit "</div>") true
                   ∧ str_contains (content t) (opening ++ content t ++ lit "</div>") = true)
                (filter user_or_assistant mixed_history) es.
Proof.
  split; [reflexivity|]. split; [vm_compute; reflexivity|].
  apply (display_renders_user_and_assistant_turns 1%positive mixed_world mixed_history).
  reflexivity.
Defined.

Opaque lit.

(** ** [generate_response] (lines 61-79) *)

(** X2. A response that the [try] block cannot read is answered like a
    failed call: without choices the text is the [IndexError] message after
    ["Error: "], with a first choice whose content is [None] it is the
    [AttributeError] message; either way one record is logged, nothing is
    raised and the text contains ["Error:"]. *)
Theorem malformed_response_is_answered service prompt h w history r :
  heap w !! h = Some history →
  service (api_key w) (built_request prompt history) = Returns r →
  (choices r = [] ∨ ∃ c cs, choices r = c :: cs ∧ message_content c = None) →
  ∃ message w',
    generate_response service prompt h w = (Ok (lit "Error: " ++ message), w')
    ∧ str_contains (lit "Error:") (lit "Error: " ++ message) = true
    ∧ log w' = log w ++ [lit "Error generating response: " ++ message]
    ∧ (choices r = [] → message = lit "list index out of range")
    ∧ (choices r ≠ [] → message = lit "'NoneType' object has no attribute 'strip'").
Proof.
  intros Hh Hs Hbad.
  rewrite (generate_response_run service prompt h w history Hh).
  cbv zeta. unfold try_except. rewrite Hs.
  destruct Hbad as [Hnil | (c & cs & Hc & Hnone)].
  - rewrite Hnil. eexists _, _.
    unfold bind, first_item, raise, logger_error, ret. simpl.
    split; [reflexivity|]. split; [apply error_text_contains_marker|].
    split; [reflexivity|]. split; [reflexivity | intros H; contradiction].
  - rewrite Hc. eexists _, _.
    unfold bind, first_item, content_strip, raise, logger_error, ret. simpl.
    rewrite Hnone. simpl.
    split; [reflexivity|]. split; [apply error_text_contains_marker|].
    split; [reflexivity|]. split; [intros H; discriminate | reflexivity].
Qed.

(** X3. [generate_response] never fails silently and never logs without
    cause: either it returns the stripped content of the first choice and
    writes no log record, or it returns ["Error: "] followed by a message
    and logs exactly one record, which carries the same message. *)
Theorem failure_is_logged_exactly_once service prompt h w history :
  heap w !! h = Some history →
  ∃ text w',
    generate_response service prompt h w = (Ok text, w')
    ∧ ((∃ r c cs s,
          service (api_key w) (built_request prompt history) = Returns r
          ∧ choices r = c :: cs ∧ message_content c = Some s
          ∧ text = strip s ∧ log w' = log w)
       ∨ (∃ message,
            text = lit "Error: " ++ message
            ∧ log w' = log w ++ [lit "Error generating response: " ++ message]
            ∧ ∀ r c cs s,
                service (api_key w) (built_request prompt history) = Returns r →
                choices r = c :: cs → message_content c ≠ Some s)).
Proof.
  intros Hh.
  rewrite (generate_response_run service prompt h w history Hh).
  cbv zeta. unfold try_except.
  destruct (service (api_key w) (built_request prompt history)) as [r|e] eqn:Hs.
  - destruct r as [[|c cs]].
    + eexists _, _. unfold bind, first_item, raise, logger_error, ret. simpl.
      split; [reflexivity|]. right. eexists. split; [reflexivity|].
      split; [reflexivity|]. intros r c cs s [= <-] Hc. discriminate.
    + destruct c as [[s|]].
      * eexists _, _. unfold bind, first_item, content_strip, ret. simpl.
        split; [reflexivity|]. left. eexists _, _, _, _.
        repeat split; reflexivity.
      * eexists _, _.
        unfold bind, first_item, content_strip, raise, logger_error, ret. simpl.
        split; [reflexivity|]. right. eexists. split; [reflexivity|].
        split; [reflexivity|].
        intros r c cs' s [= <-] [= <- <-] Hm. discriminate.
  - eexists _, _. unfold bind, raise, logger_error, ret. simpl.
    split; [reflexivity|]. right. eexists. split; [reflexivity|].
    split; [reflexivity|]. intros r c cs s Hr. discriminate.
Qed.

(** X4. A call of [generate_response] consults the service exactly once,
    whatever the outcome (there is no retry), with the model
    ["gpt-3.5-turbo"] and the temperature 0.6, and leaves the session
    state, the environment, the credential and the page as they are. *)
Theorem one_attempt_per_call service prompt h w history :
  heap w !! h = Some history →
  ∃ text w' req,
    generate_response service prompt h w = (Ok text, w')
    ∧ calls w' = calls w ++ [req]
    ∧ model req = lit "gpt-3.5-turbo"
    ∧ temperature req = (6 # 10)%Q
    ∧ session_state w' = session_state w
    ∧ environ w' = environ w
    ∧ api_key w' = api_key w
    ∧ ui w' = ui w.
Proof.
  intros Hh.
  destruct (generate_response_effect service prompt h w history Hh)
    as (text & w' & Hrun & _ & Hs & He & Hk & Hu & Hc & _).
  exists text, w', (built_request prompt history).
  repeat split; assumption || reflexivity.
Qed.

Transparent lit.

Lemma malformed_response_is_answered_witness :
  heap demo_world !! 1%positive = Some demo_history
  ∧ empty_service (api_key demo_world) (built_request (lit "Hello") demo_history)
    = Returns {| choices := [] |}
  ∧ ∃ message w',
      generate_response empty_service (lit "Hello") 1%positive demo_world
      = (Ok (lit "Error: " ++ message), w')
      ∧ message = lit "list index out of range".
Proof.
  split; [reflexivity|]. split; [reflexivity|].
  destruct (malformed_response_is_answered empty_service (lit "Hello") 1%positive
              demo_world demo_history {| choices := [] |} eq_refl eq_refl
              (or_introl eq_refl))
    as (message & w' & Hrun & _ & _ & Hnil & _).
  exists message, w'. split; [exact Hrun | exact (Hnil eq_refl)].
Defined.

Lemma failure_is_logged_exactly_once_witness :
  heap demo_world !! 1%positive = Some demo_history
  ∧ ∃ text w',
      generate_response silent_service (lit "Hello") 1%positive demo_world = (Ok text, w')
      ∧ ((∃ r c cs s,
            silent_service (api_key demo_world) (built_request (lit "Hello") demo_history)
            = Returns r
            ∧ choices r = c :: cs ∧ message_content c = Some s
            ∧ text = strip s ∧ log w' = log demo_world)
         ∨ (∃ message,
              text = lit "Error: " ++ message
              ∧ log w' = log demo_world ++ [lit "Error generating response: " ++ message]
              ∧ ∀ r c cs s,
                  silent_service (api_key demo_world) (built_request (lit "Hello") demo_history)
                  = Returns r →
                  choices r = c :: cs → message_content c ≠ Some s)).
Proof.
  split; [reflexivity|].
  apply (failure_is_logged_exactly_once silent_service (lit "Hello") 1%positive
           demo_world demo_history).
  reflexivity.
Defined.

Lemma one_attempt_per_call_witness :
  heap demo_world !! 1%positive = Some demo_history
  ∧ ∃ text w' req,
      generate_response failing_service (lit "Hello") 1%positive demo_world = (Ok text, w')
      ∧ calls w' = calls demo_world ++ [req]
      ∧ model req = lit "gpt-3.5-turbo"
      ∧ temperature req = (6 # 10)%Q
      ∧ session_state w' = session_state demo_world
      ∧ environ w' = environ demo_world
      ∧ api_key w' = api_key demo_world
      ∧ ui w' = ui demo_world.
Proof.
  split; [reflexivity|].
  apply (one_attempt_per_call failing_service (lit "Hello") 1%positive
           demo_world demo_history).
  reflexivity.
Defined.

Opaque lit.

(** ** The chatbot section (lines 100-120) *)

Section ChatbotPage.

Variable service : option secret → Request → Outcome.

Lemma chatbot_section_page input w l :
  session_state w !! "messages" = Some l →
  ui (snd (chatbot_section service input w))
  = ui w
    ++ [st_title (section_title Chatbot);
        st_write (lit "Ask me anything about my projects, background, or data science in general!")]
    ++ (default [] (heap w !! l) ≫= bubble)
    ++ st_chat_input (lit "Type your message here:")
       :: match input with
          | Some text => if truthy text then [st_spinner (lit "Thinking...")] else []
          | None => []
          end.
Proof.
  intros Hl. unfold chatbot_section.
  rewrite !bind_emit.
  erewrite bind_ok; [|apply (init_messages_present _ l); exact Hl].
  unfold bind at 1. unfold session_get at 1. simpl session_state. rewrite Hl.
  erewrite bind_ok; [|apply display_chat_messages_bubbles].
  unfold chat_input. unfold bind at 1 2. unfold emit at 1, ret at 1.
  simpl heap.
  match goal with |- context [set_ui ?f (set_ui ?g (set_ui ?h (set_ui ?k w)))] =>
    set (w0 := set_ui f (set_ui g (set_ui h (set_ui k w)))) end.
  assert (Hui : ui w0 = ui w
    ++ [st_title (section_title Chatbot);
        st_write (lit "Ask me anything about my projects, background, or data science in general!")]
    ++ (default [] (heap w !! l) ≫= bubble)
    ++ [st_chat_input (lit "Type your message here:")]).
  { unfold w0. simpl. rewrite <- !app_assoc. reflexivity. }
  destruct input as [text|]; [|exact Hui].
  destruct (truthy text); [|exact Hui].
  unfold bind at 1. unfold session_get at 1.
  replace (session_state w0) with (session_state w) by reflexivity. rewrite Hl.
  unfold bind at 1. unfold list_append at 1, bind at 1, read_list at 1.
  replace (heap w0) with (heap w) by reflexivity.
  set (old := default [] (heap w !! l)) in *.
  unfold bind at 1. unfold emit at 1.
  unfold bind at 1. unfold session_get at 1. simpl session_state. rewrite Hl.
  match goal with |- context [bind (generate_response service text l) _ ?w1'] =>
    set (w1 := w1') end.
  assert (H1 : heap w1 !! l = Some (old ++ [user_turn text])).
  { unfold w1. simpl. apply lookup_insert_eq. }
  destruct (generate_response_effect service text l w1 _ H1)
    as (response & w2 & Hrun & _ & Hsess & _ & _ & Hui2 & _).
  erewrite bind_ok; [|exact Hrun].
  unfold bind at 1. unfold session_get at 1. rewrite Hsess. simpl session_state. rewrite Hl.
  unfold list_append, bind, read_list. simpl. rewrite Hui2.
  replace (ui w1) with (ui w0 ++ [st_spinner (lit "Thinking...")]) by reflexivity.
  rewrite Hui, <- !app_assoc. reflexivity.
Qed.

(** The page of the section on any session: the stored conversation, or
    the greeting for a session that had none. *)
Lemma chatbot_section_page_any input w :
  ui (snd (chatbot_section service input w))
  = ui w
    ++ [st_title (section_title Chatbot);
        st_write (lit "Ask me anything about my projects, background, or data science in general!")]
    ++ (displayed_conversation w ≫= bubble)
    ++ st_chat_input (lit "Type your message here:")
       :: match input with
          | Some text => if truthy text then [st_spinner (lit "Thinking...")] else []
          | None => []
          end.
Proof.
  unfold displayed_conversation.
  destruct (session_state w !! "messages") as [l|] eqn:Hs.
  - apply chatbot_section_page. exact Hs.
  - rewrite (chatbot_section_seed service input w Hs).
    rewrite (chatbot_section_page input _ (fresh (dom (heap w))))
      by (simpl; apply lookup_insert_eq).
    simpl. rewrite lookup_insert_eq. reflexivity.
Qed.

End ChatbotPage.

Lemma chatbot_page service i w :
  resolution_completes i w →
  selected i = Chatbot →
  ∃ head,
    head = match first_match (environ w ∪ dotenv i) (st_secrets i) with
           | Some _ => page_head
           | None => page_head_without_key
           end
    ∧ ui (snd (run_page service i w))
      = head
        ++ [st_title (section_title Chatbot);
            st_write (lit "Ask me anything about my projects, background, or data science in general!")]
        ++ (displayed_conversation w ≫= bubble)
        ++ st_chat_input (lit "Type your message here:")
           :: match submitted i with
              | Some text => if truthy text then [st_spinner (lit "Thinking...")] else []
              | None => []
              end.
Proof.
  intros Hres Hm. unfold run_page.
  destruct (script_prelude service i (set_ui (λ _, []) w)
              (resolution_completes_environ i w (set_ui (λ _, []) w) eq_refl Hres))
    as (w1 & -> & Hh & Hss & _ & _ & _ & Hkey).
  rewrite Hm, chatbot_section_page_any.
  replace (displayed_conversation w1) with (displayed_conversation w)
    by (unfold displayed_conversation; rewrite Hss, Hh; reflexivity).
  eexists. split; [reflexivity|].
  simpl environ in Hkey. simpl ui in Hkey.
  destruct (first_match (environ w ∪ dotenv i) (st_secrets i));
    destruct Hkey as [_ ->]; reflexivity.
Qed.

(** X5. Submitting the empty string is the same as submitting nothing:
    the run is the idle run, so no turn is stored, no call is made and no
    log record is written. *)
Theorem empty_text_is_ignored service i w :
  submitted i = Some [] →
  run_page service i w = run_page service (idle i) w
  ∧ calls (snd (run_page service i w)) = calls w
  ∧ log (snd (run_page service i w)) = log w
  ∧ ∀ c, conversation w = Some c → conversation (snd (run_page service i w)) = Some c.
Proof.
  intros Hin.
  assert (Hsame : run_page service i w = run_page service (idle i) w).
  { unfold run_page, script, idle. simpl. rewrite Hin. reflexivity. }
  split; [exact Hsame|]. rewrite Hsame.
  destruct (run_page service (idle i) w) as [r w'] eqn:Hrun. simpl.
  destruct (resolution_completes_dec (idle i) w) as [Hres|Hres].
  2:{ destruct (run_page_stopped service (idle i) w Hres)
        as (e & w0 & Hrun0 & Hheap & Hs' & Hc & Hl & _).
      rewrite Hrun in Hrun0. injection Hrun0 as -> <-.
      split; [exact Hc|]. split; [exact Hl|].
      intros c Hconv. unfold conversation in *. rewrite Hs', Hheap. exact Hconv. }
  destruct (decide (selected (idle i) = Chatbot)) as [Hm|Hm].
  - destruct (session_state w !! "messages") as [l|] eqn:Hs.
    + destruct (run_page_chat service (idle i) w l Hres Hm Hs) as (w0 & Hrun0 & Hs' & Heff).
      rewrite Hrun in Hrun0. injection Hrun0 as -> <-.
      destruct Heff as (Hheap & Hc & Hl).
      split; [exact Hc|]. split; [exact Hl|].
      intros c Hconv. unfold conversation in *. rewrite Hs', Hheap. exact Hconv.
    + destruct (run_page_chat_new service (idle i) w Hres Hm Hs) as (w0 & Hrun0 & Hs' & Heff).
      rewrite Hrun in Hrun0. injection Hrun0 as -> <-.
      destruct Heff as (Hheap & Hc & Hl).
      split; [exact Hc|]. split; [exact Hl|].
      intros c Hconv. unfold conversation in Hconv. rewrite Hs in Hconv. discriminate.
  - destruct (run_page_static service (idle i) w Hres Hm)
      as (w0 & Hrun0 & Hheap & Hs' & Hc & Hl).
    rewrite Hrun in Hrun0. injection Hrun0 as -> <-.
    split; [exact Hc|]. split; [exact Hl|].
    intros c Hconv. unfold conversation in *. rewrite Hs', Hheap. exact Hconv.
Qed.

(** X6. When credential resolution completes, the page rendered while a
    message is processed is the page of the idle run followed by the
    spinner: the user turn and the response stored during the run are not
    rendered by that run. *)
Theorem submit_page_is_idle_page_with_spinner service service' i w text :
  resolution_completes i w →
  selected i = Chatbot → submitted i = Some text → truthy text = true →
  ui (snd (run_page service i w))
  = ui (snd (run_page service' (idle i) w)) ++ [st_spinner (lit "Thinking...")].
Proof.
  intros Hres Hm Hin Ht.
  destruct (chatbot_page service i w Hres Hm) as (head & Hhead & ->).
  destruct (chatbot_page service' (idle i) w Hres Hm) as (head' & Hhead' & ->).
  simpl in Hhead'. rewrite <- Hhead in Hhead'. subst head'.
  rewrite Hin, Ht. simpl submitted.
  rewrite <- !app_assoc. reflexivity.
Qed.

(** X7. When credential resolution completes, the chatbot page is, in
    order: the page head, with the error banner exactly when none of the
    three sources holds the key; the section's title and invitation; one
    bubble per user or assistant turn of the conversation as it is stored
    when the run starts (the greeting alone for a session without
    conversation); the chat input; and the spinner exactly when a
    non-empty message is processed in the run. *)
Theorem chatbot_page_shows_stored_conversation service i w r w' :
  resolution_completes i w →
  selected i = Chatbot →
  run_page service i w = (r, w') →
  ui w'
  = match first_match (environ w ∪ dotenv i) (st_secrets i) with
    | Some _ => [page_config; page_style; sidebar_title; sidebar_radio]
    | None => [page_config; no_key_banner; page_style; sidebar_title; sidebar_radio]
    end
    ++ [st_title (lit "Interactive Portfolio Chatbot");
        st_write (lit "Ask me anything about my projects, background, or data science in general!")]
    ++ (displayed_conversation w ≫= bubble)
    ++ st_chat_input (lit "Type your message here:")
       :: match submitted i with
          | Some text => if truthy text then [st_spinner (lit "Thinking...")] else []
          | None => []
          end.
Proof.
  intros Hres Hm Hrun.
  destruct (chatbot_page service i w Hres Hm) as (head & Hhead & Hui).
  rewrite Hrun in Hui. simpl in Hui. rewrite Hui, Hhead.
  destruct (first_match _ _); reflexivity.
Qed.

(** X8. A run with a section other than the chatbot selected makes no
    call to the completion service, writes no log record and leaves the
    heap, the session state and so the conversation as they are, whatever
    the other inputs of the run and whether or not credential resolution
    completes; when it completes, the run ends without an exception. *)
Theorem other_sections_leave_session_alone service i w r w' :
  selected i ≠ Chatbot →
  run_page service i w = (r, w') →
  (resolution_completes i w → r = Ok tt)
  ∧ heap w' = heap w ∧ session_state w' = session_state w
  ∧ calls w' = calls w ∧ log w' = log w
  ∧ conversation w' = conversation w.
Proof.
  intros Hm Hrun.
  destruct (resolution_completes_dec i w) as [Hres|Hres].
  - destruct (run_page_static service i w Hres Hm) as (w0 & Hrun0 & Hheap & Hs & Hc & Hl).
    rewrite Hrun in Hrun0. injection Hrun0 as -> <-.
    split; [reflexivity|]. repeat split; try assumption.
    unfold conversation. rewrite Hs, Hheap. reflexivity.
  - destruct (run_page_stopped service i w Hres)
      as (e & w0 & Hrun0 & Hheap & Hs & Hc & Hl & _).
    rewrite Hrun in Hrun0. injection Hrun0 as -> <-.
    split; [intros H; contradiction|]. repeat split; try assumption.
    unfold conversation. rewrite Hs, Hheap. reflexivity.
Qed.

(** One submitted message on any session, with or without conversation. *)
Lemma chat_submitted_any service i w text r w' :
  resolution_completes i w →
  selected i = Chatbot → submitted i = Some text → truthy text = true →
  run_page service i w = (r, w') →
  r = Ok tt
  ∧ ∃ response,
      conversation w'
      = Some (displayed_conversation w ++ [user_turn text; assistant_turn response])
      ∧ calls w' = calls w ++ [built_request text (displayed_conversation w ++ [user_turn text])].
Proof.
  intros Hres Hm Hin Ht Hrun. unfold displayed_conversation.
  destruct (session_state w !! "messages") as [l|] eqn:Hs.
  - destruct (run_page_chat service i w l Hres Hm Hs) as (w0 & Hrun0 & Hs' & Heff).
    rewrite Hrun in Hrun0. injection Hrun0 as -> <-.
    split; [reflexivity|].
    unfold chat_effect in Heff. rewrite Hin, Ht in Heff.
    destruct Heff as (response & Hheap & Hcalls & _).
    exists response. split; [|exact Hcalls].
    apply (conversation_intro _ l); [rewrite Hs'; exact Hs|].
    rewrite Hheap. apply lookup_insert_eq.
  - destruct (run_page_chat_new service i w Hres Hm Hs) as (w0 & Hrun0 & Hs' & Heff).
    rewrite Hrun in Hrun0. injection Hrun0 as -> <-.
    split; [reflexivity|].
    unfold chat_effect in Heff. rewrite Hin, Ht, lookup_insert_eq in Heff.
    simpl default in Heff.
    destruct Heff as (response & Hheap & Hcalls & _).
    exists response. split; [|exact Hcalls].
    apply (conversation_intro _ (fresh (dom (heap w))));
      [rewrite Hs'; apply lookup_insert_eq|].
    rewrite Hheap. apply lookup_insert_eq.
Qed.

(** X9. When credential resolution completes, a message submitted on a
    session that has no conversation yet is not lost: the run first stores
    the greeting, so the conversation ends as greeting, user turn,
    response, and the request carries the system turn, the greeting and
    the user turn twice. *)
Theorem first_message_seeds_then_appends service i w text r w' :
  resolution_completes i w →
  selected i = Chatbot → submitted i = Some text → truthy text = true →
  session_state w !! "messages" = None →
  run_page service i w = (r, w') →
  r = Ok tt
  ∧ ∃ response req,
      conversation w' = Some [greeting; user_turn text; assistant_turn response]
      ∧ calls w' = calls w ++ [req]
      ∧ messages req = [system_turn; greeting; user_turn text; user_turn text].
Proof.
  intros Hres Hm Hin Ht Hs Hrun.
  destruct (chat_submitted_any service i w text r w' Hres Hm Hin Ht Hrun)
    as (-> & response & Hconv & Hcalls).
  unfold displayed_conversation in Hconv, Hcalls. rewrite Hs in Hconv, Hcalls.
  split; [reflexivity|].
  exists response, (built_request text ([greeting] ++ [user_turn text])).
  split; [exact Hconv|]. split; [exact Hcalls | reflexivity].
Qed.

(** ** The conversation and the calls of a session *)

Lemma dialogue_snoc exchanges q a :
  dialogue (exchanges ++ [(q, a)]) = dialogue exchanges ++ [user_turn q; assistant_turn a].
Proof.
  unfold dialogue. rewrite bind_app, bind_singleton. reflexivity.
Qed.

Lemma requests_of_snoc exchanges q a :
  requests_of (exchanges ++ [(q, a)])
  = requests_of exchanges ++ [built_request q (dialogue exchanges ++ [user_turn q])].
Proof.
  unfold requests_of. rewrite imap_app. f_equal.
  - apply imap_ext. intros k [q' a'] Hk. simpl.
    rewrite take_app_le; [reflexivity|].
    apply lookup_lt_Some in Hk. lia.
  - simpl. rewrite Nat.add_0_r, take_app_length. reflexivity.
Qed.

Lemma length_dialogue exchanges :
  length (dialogue exchanges) = S (2 * length exchanges).
Proof.
  unfold dialogue. simpl. f_equal.
  induction exchanges as [|qa exchanges IH]; [reflexivity|].
  rewrite bind_cons. simpl. rewrite IH. lia.
Qed.

Lemma chat_effect_dialogue service input l hp w w' exchanges :
  hp !! l = Some (dialogue exchanges) →
  calls w = requests_of exchanges →
  chat_effect service input l hp w w' →
  ∃ exchanges', heap w' !! l = Some (dialogue exchanges')
                ∧ calls w' = requests_of exchanges'.
Proof.
  intros Hl Hcalls Heff.
  assert (Hidle : heap w' = hp ∧ calls w' = calls w ∧ log w' = log w →
            ∃ exchanges', heap w' !! l = Some (dialogue exchanges')
                          ∧ calls w' = requests_of exchanges').
  { intros (-> & -> & _). exists exchanges. split; assumption. }
  unfold chat_effect in Heff. rewrite Hl in Heff. simpl default in Heff.
  destruct input as [text|]; [|exact (Hidle Heff)].
  destruct (truthy text); [|exact (Hidle Heff)].
  destruct Heff as (response & -> & -> & _).
  exists (exchanges ++ [(text, response)]). split.
  - rewrite lookup_insert_eq, dialogue_snoc. reflexivity.
  - rewrite requests_of_snoc, Hcalls. reflexivity.
Qed.

Lemma run_page_dialogue service i w r w' :
  dialogue_invariant w → run_page service i w = (r, w') → dialogue_invariant w'.
Proof.
  intros Hinv Hrun.
  destruct (resolution_completes_dec i w) as [Hres|Hres].
  2:{ destruct (run_page_stopped service i w Hres)
        as (e & w0 & Hrun0 & Hheap & Hs' & Hc & _).
      rewrite Hrun in Hrun0. injection Hrun0 as -> <-.
      unfold dialogue_invariant, conversation in *. rewrite Hs', Hheap, Hc. exact Hinv. }
  destruct (decide (selected i = Chatbot)) as [Hm|Hm].
  - destruct (session_state w !! "messages") as [l|] eqn:Hs.
    + destruct Hinv as [[Hnone _] | (exchanges & Hconv & Hcalls)]; [congruence|].
      destruct (run_page_chat service i w l Hres Hm Hs) as (w0 & Hrun0 & Hs' & Heff).
      rewrite Hrun in Hrun0. injection Hrun0 as -> <-.
      unfold conversation in Hconv. rewrite Hs in Hconv.
      destruct (chat_effect_dialogue _ _ _ _ _ _ _ Hconv Hcalls Heff)
        as (exchanges' & Hheap & Hcalls').
      right. exists exchanges'. split; [|exact Hcalls'].
      apply (conversation_intro _ l); [rewrite Hs'; exact Hs | exact Hheap].
    + assert (Hcalls : calls w = requests_of []).
      { destruct Hinv as [[_ Hc] | (exchanges & Hconv & _)]; [exact Hc|].
        unfold conversation in Hconv. rewrite Hs in Hconv. discriminate. }
      destruct (run_page_chat_new service i w Hres Hm Hs) as (w0 & Hrun0 & Hs' & Heff).
      rewrite Hrun in Hrun0. injection Hrun0 as -> <-.
      destruct (chat_effect_dialogue _ _ _ _ _ _ [] (lookup_insert_eq _ _ _) Hcalls Heff)
        as (exchanges' & Hheap & Hcalls').
      right. exists exchanges'. split; [|exact Hcalls'].
      apply (conversation_intro _ (fresh (dom (heap w))));
        [rewrite Hs'; apply lookup_insert_eq | exact Hheap].
  - destruct (run_page_static service i w Hres Hm) as (w0 & Hrun0 & Hheap & Hs' & Hc & _).
    rewrite Hrun in Hrun0. injection Hrun0 as -> <-.
    unfold dialogue_invariant, conversation in *. rewrite Hs', Hheap, Hc. exact Hinv.
Qed.

Lemma reachable_dialogue w : reachable w → dialogue_invariant w.
Proof.
  induction 1 as [w Hs Hc | service i w r w' _ IH Hrun].
  - left. split; [rewrite Hs; apply lookup_empty | exact Hc].
  - exact (run_page_dialogue service i w r w' IH Hrun).
Qed.

Lemma exchanges_lookup exchanges k q a :
  exchanges !! k = Some (q, a) →
  (exchanges ≫= exchange) !! (2 * k)%nat = Some (user_turn q)
  ∧ (exchanges ≫= exchange) !! S (2 * k) = Some (assistant_turn a).
Proof.
  revert k. induction exchanges as [|qa exchanges IH]; intros k Hk; [discriminate|].
  rewrite bind_cons. destruct k as [|k].
  - injection Hk as ->. split; reflexivity.
  - simpl in Hk. destruct (IH k Hk) as [H1 H2].
    replace (2 * S k)%nat with (S (S (2 * k))) by lia.
    split; [exact H1 | exact H2].
Qed.

(** X10. In every world a session can reach, the conversation is the
    greeting followed by one (user turn, assistant turn) pair per call
    made to the completion service, in order, and the request of each call
    carries the whole conversation that precedes it: the system turn, the
    turns stored so far including the user turn of that call, and that
    user turn once more. *)
Theorem conversation_mirrors_calls w c :
  reachable w →
  conversation w = Some c →
  ∃ exchanges,
    c = dialogue exchanges
    ∧ calls w = requests_of exchanges
    ∧ length (calls w) = length exchanges
    ∧ length c = S (2 * length (calls w))
    ∧ ∀ k q a, exchanges !! k = Some (q, a) →
        ∃ req, calls w !! k = Some req
               ∧ messages req
                 = [system_turn] ++ dialogue (take k exchanges) ++ [user_turn q; user_turn q]
               ∧ c !! S (2 * k) = Some (user_turn q)
               ∧ c !! S (S (2 * k)) = Some (assistant_turn a).
Proof.
  intros Hr Hc.
  destruct (reachable_dialogue w Hr) as [[Hnone _] | (exchanges & Hconv & Hcalls)].
  { unfold conversation in Hc. rewrite Hnone in Hc. discriminate. }
  rewrite Hc in Hconv. injection Hconv as ->.
  exists exchanges. split; [reflexivity|]. split; [exact Hcalls|].
  rewrite Hcalls. unfold requests_of at 1 2. rewrite length_imap.
  split; [reflexivity|]. split; [apply length_dialogue|].
  intros k q a Hk.
  exists (built_request q (dialogue (take k exchanges) ++ [user_turn q])).
  split; [|split].
  - unfold requests_of. rewrite list_lookup_imap, Hk. reflexivity.
  - simpl. rewrite <- app_assoc. reflexivity.
  - destruct (exchanges_lookup exchanges k q a Hk) as [H1 H2].
    split; [exact H1 | exact H2].
Qed.

Transparent lit.

Lemma empty_text_is_ignored_witness :
  submitted empty_event = Some []
  ∧ run_page failing_service empty_event demo_world
    = run_page failing_service (idle empty_event) demo_world
  ∧ calls (snd (run_page failing_service empty_event demo_world)) = calls demo_world
  ∧ log (snd (run_page failing_service empty_event demo_world)) = log demo_world
  ∧ conversation (snd (run_page failing_service empty_event demo_world)) = Some demo_history.
Proof.
  split; [reflexivity|].
  destruct (empty_text_is_ignored failing_service empty_event demo_world eq_refl)
    as (Hsame & Hcalls & Hlog & Hconv).
  split; [exact Hsame|]. split; [exact Hcalls|]. split; [exact Hlog|].
  apply Hconv. reflexivity.
Defined.

Lemma submit_page_is_idle_page_with_spinner_witness :
  resolution_completes hello_event demo_world
  ∧ selected hello_event = Chatbot
  ∧ submitted hello_event = Some (lit "Hello")
  ∧ truthy (lit "Hello") = true
  ∧ ui (snd (run_page (stub_returning (lit "Hi there")) hello_event demo_world))
    = ui (snd (run_page failing_service (idle hello_event) demo_world))
      ++ [st_spinner (lit "Thinking...")].
Proof.
  split; [reflexivity|].
  split; [reflexivity|]. split; [reflexivity|]. split; [reflexivity|].
  apply (submit_page_is_idle_page_with_spinner (stub_returning (lit "Hi there"))
           failing_service hello_event demo_world (lit "Hello"));
    reflexivity.
Defined.

Lemma chatbot_page_shows_stored_conversation_witness :
  resolution_completes hello_event demo_world
  ∧ selected hello_event = Chatbot
  ∧ ui (snd (run_page (stub_returning (lit "Hi there")) hello_event demo_world))
    = [page_config; no_key_banner; page_style; sidebar_title; sidebar_radio]
      ++ [st_title (lit "Interactive Portfolio Chatbot");
          st_write (lit "Ask me anything about my projects, background, or data science in general!")]
      ++ (demo_history ≫= bubble)
      ++ [st_chat_input (lit "Type your message here:"); st_spinner (lit "Thinking...")].
Proof.
  split; [reflexivity|]. split; [reflexivity|].
  apply (chatbot_page_shows_stored_conversation (stub_returning (lit "Hi there"))
           hello_event demo_world
           (fst (run_page (stub_returning (lit "Hi there")) hello_event demo_world))
           (snd (run_page (stub_returning (lit "Hi there")) hello_event demo_world)));
    [reflexivity | reflexivity | apply surjective_pairing].
Defined.

Lemma other_sections_leave_session_alone_witness :
  selected portfolio_with_text ≠ Chatbot
  ∧ resolution_completes portfolio_with_text demo_world
  ∧ fst (run_page failing_service portfolio_with_text demo_world) = Ok tt
  ∧ calls (snd (run_page failing_service portfolio_with_text demo_world)) = calls demo_world
  ∧ conversation (snd (run_page failing_service portfolio_with_text demo_world))
    = Some demo_history.
Proof.
  assert (Hm : selected portfolio_with_text ≠ Chatbot) by (intros H; discriminate).
  assert (Hres : resolution_completes portfolio_with_text demo_world) by reflexivity.
  split; [exact Hm|]. split; [exact Hres|].
  destruct (other_sections_leave_session_alone failing_service portfolio_with_text demo_world
              (fst (run_page failing_service portfolio_with_text demo_world))
              (snd (run_page failing_service portfolio_with_text demo_world))
              Hm (surjective_pairing _))
    as (Hok & _ & _ & Hcalls & _ & Hconv).
  split; [exact (Hok Hres)|]. split; [exact Hcalls|]. rewrite Hconv. reflexivity.
Defined.

Lemma first_message_seeds_then_appends_witness :
  resolution_completes hello_event unseeded_world
  ∧ selected hello_event = Chatbot
  ∧ submitted hello_event = Some (lit "Hello")
  ∧ truthy (lit "Hello") = true
  ∧ session_state unseeded_world !! "messages" = None
  ∧ fst (run_page (stub_returning (lit "Hi there")) hello_event unseeded_world) = Ok tt
  ∧ ∃ response req,
      conversation (snd (run_page (stub_returning (lit "Hi there")) hello_event unseeded_world))
      = Some [greeting; user_turn (lit "Hello"); assistant_turn response]
      ∧ calls (snd (run_page (stub_returning (lit "Hi there")) hello_event unseeded_world))
        = calls unseeded_world ++ [req]
      ∧ messages req
        = [system_turn; greeting; user_turn (lit "Hello"); user_turn (lit "Hello")].
Proof.
  split; [reflexivity|].
  split; [reflexivity|]. split; [reflexivity|]. split; [reflexivity|].
  split; [reflexivity|].
  apply (first_message_seeds_then_appends (stub_returning (lit "Hi there")) hello_event
           unseeded_world (lit "Hello")
           (fst (run_page (stub_returning (lit "Hi there")) hello_event unseeded_world))
           (snd (run_page (stub_returning (lit "Hi there")) hello_event unseeded_world)));
    [reflexivity | reflexivity | reflexivity | reflexivity | reflexivity
    | apply surjective_pairing].
Defined.

Lemma conversation_mirrors_calls_witness :
  reachable (snd (run_page (stub_returning (lit "Hi there")) hello_event seeded_world))
  ∧ conversation (snd (run_page (stub_returning (lit "Hi there")) hello_event seeded_world))
    = Some (dialogue [(lit "Hello", lit "Hi there")])
  ∧ ∃ exchanges,
      dialogue [(lit "Hello", lit "Hi there")] = dialogue exchanges
      ∧ calls (snd (run_page (stub_returning (lit "Hi there")) hello_event seeded_world))
        = requests_of exchanges.
Proof.
  assert (Hreach : reachable (snd (run_page (stub_returning (lit "Hi there")) hello_event
                                     seeded_world))).
  { eapply reachable_run; [|apply surjective_pairing].
    eapply reachable_run; [|apply surjective_pairing].
    apply reachable_new; reflexivity. }
  assert (Hconv : conversation (snd (run_page (stub_returning (lit "Hi there")) hello_event
                                       seeded_world))
                  = Some (dialogue [(lit "Hello", lit "Hi there")])).
  { vm_compute. reflexivity. }
  split; [exact Hreach|]. split; [exact Hconv|].
  destruct (conversation_mirrors_calls _ _ Hreach Hconv) as (exchanges & H1 & H2 & _).
  exists exchanges. split; assumption.
Defined.

Opaque lit.

(** ** The credential and the list objects across runs *)

(** X11. The banner does not mean that no credential is in force.  When
    credential resolution completes without finding the key (line 31 is
    reached), [openai.api_key] keeps the value an earlier run gave it: the
    banner is shown, and a message submitted in that run is still sent to
    the completion service with the earlier credential. *)
Theorem earlier_credential_stays_in_force service i w old text v r w' :
  resolution_completes i w →
  first_match (environ w ∪ dotenv i) (st_secrets i) = None →
  api_key w = Some v →
  selected i = Chatbot → submitted i = Some text → truthy text = true →
  conversation w = Some old →
  run_page service i w = (r, w') →
  r = Ok tt
  ∧ api_key w' = Some v
  ∧ no_key_banner ∈ ui w'
  ∧ ∃ response,
      conversation w' = Some (old ++ [user_turn text; assistant_turn response])
      ∧ calls w' = calls w ++ [built_request text (old ++ [user_turn text])]
      ∧ (∀ e, service (Some v) (built_request text (old ++ [user_turn text])) = Raises e →
           response = lit "Error: " ++ exn_str e)
      ∧ (∀ r0 c cs s,
           service (Some v) (built_request text (old ++ [user_turn text])) = Returns r0 →
           choices r0 = c :: cs → message_content c = Some s →
           response = strip s).
Proof.
  intros Hcompl Hnone Hkey Hm Hin Ht Hc Hrun.
  destruct (run_page_renders service i w Hcompl) as (w0 & body & Hrun0 & _ & Hres).
  rewrite Hrun in Hrun0. injection Hrun0 as -> <-.
  rewrite Hnone in Hres. destruct Hres as [Hk Hui].
  rewrite Hkey in Hk.
  split; [reflexivity|]. split; [exact Hk|]. split.
  { rewrite Hui. apply elem_of_app. left.
    apply list_elem_of_further, list_elem_of_here. }
  destruct (chat_submitted service i w old text (Ok tt) w' Hcompl Hm Hin Ht Hc Hrun)
    as (_ & response & Hconv & Hcalls & Hraise & Hreturn).
  rewrite Hk in Hraise, Hreturn.
  exists response. split; [exact Hconv|]. split; [exact Hcalls|]. split.
  - intros e He. apply (Hraise e He).
  - intros r0 c cs s Hr Hch Hcont. apply (Hreturn r0 c cs s Hr Hch Hcont).
Qed.

(** X12. The session never rebinds its conversation: once
    [st.session_state.messages] refers to a list object, it refers to the
    same object after every run, and a run changes the contents of no
    other list object that exists when it starts. *)
Theorem session_list_object_is_stable service i w l r w' :
  session_state w !! "messages" = Some l →
  run_page service i w = (r, w') →
  session_state w' !! "messages" = Some l
  ∧ ∀ l' xs, l' ≠ l → heap w !! l' = Some xs → heap w' !! l' = Some xs.
Proof.
  intros Hs Hrun.
  destruct (resolution_completes_dec i w) as [Hres|Hres].
  2:{ destruct (run_page_stopped service i w Hres) as (e & w0 & Hrun0 & Hheap & Hs' & _).
      rewrite Hrun in Hrun0. injection Hrun0 as -> <-.
      split; [rewrite Hs'; exact Hs|].
      intros l' xs _ Hl'. rewrite Hheap. exact Hl'. }
  destruct (decide (selected i = Chatbot)) as [Hm|Hm].
  - destruct (run_page_chat service i w l Hres Hm Hs) as (w0 & Hrun0 & Hs' & Heff).
    rewrite Hrun in Hrun0. injection Hrun0 as -> <-.
    split; [rewrite Hs'; exact Hs|].
    intros l' xs Hne Hl'.
    assert (Hidle : heap w' = heap w ∧ calls w' = calls w ∧ log w' = log w →
              heap w' !! l' = Some xs).
    { intros (-> & _). exact Hl'. }
    unfold chat_effect in Heff.
    destruct (submitted i) as [text|]; [|exact (Hidle Heff)].
    destruct (truthy text); [|exact (Hidle Heff)].
    destruct Heff as (response & -> & _).
    rewrite lookup_insert_ne by (intros E; apply Hne; symmetry; exact E).
    rewrite lookup_insert_ne.
    + rewrite lookup_insert_ne by (intros E; apply Hne; symmetry; exact E). exact Hl'.
    + intros E. symmetry in E. revert E. apply fresh_loc_ne.
      rewrite lookup_insert_ne by (intros E; apply Hne; symmetry; exact E). eauto.
  - destruct (run_page_static service i w Hres Hm) as (w0 & Hrun0 & Hheap & Hs' & _).
    rewrite Hrun in Hrun0. injection Hrun0 as -> <-.
    split; [rewrite Hs'; exact Hs|].
    intros l' xs _ Hl'. rewrite Hheap. exact Hl'.
Qed.

Transparent lit.

Lemma earlier_credential_stays_in_force_witness :
  resolution_completes hello_event keyed_world
  ∧ first_match (environ keyed_world ∪ dotenv hello_event) (st_secrets hello_event) = None
  ∧ api_key keyed_world = Some (SStr (lit "sk-earlier"))
  ∧ conversation keyed_world = Some demo_history
  ∧ api_key (snd (run_page keyed_service hello_event keyed_world))
    = Some (SStr (lit "sk-earlier"))
  ∧ no_key_banner ∈ ui (snd (run_page keyed_service hello_event keyed_world))
  ∧ conversation (snd (run_page keyed_service hello_event keyed_world))
    = Some (demo_history ++ [user_turn (lit "Hello"); assistant_turn (lit "Hi there")]).
Proof.
  split; [reflexivity|].
  split; [reflexivity|]. split; [reflexivity|]. split; [reflexivity|].
  destruct (earlier_credential_stays_in_force keyed_service hello_event keyed_world
              demo_history (lit "Hello") (SStr (lit "sk-earlier"))
              (fst (run_page keyed_service hello_event keyed_world))
              (snd (run_page keyed_service hello_event keyed_world))
              eq_refl eq_refl eq_refl eq_refl eq_refl eq_refl eq_refl (surjective_pairing _))
    as (_ & Hk & Hb & response & Hconv & _ & _ & Hreturn).
  split; [exact Hk|]. split; [exact Hb|].
  rewrite Hconv.
  rewrite (Hreturn {| choices := [ {| message_content := Some (lit "Hi there") |} ] |}
             {| message_content := Some (lit "Hi there") |} [] (lit "Hi there")
             eq_refl eq_refl eq_refl).
  reflexivity.
Defined.

Lemma session_list_object_is_stable_witness :
  session_state demo_world !! "messages" = Some 1%positive
  ∧ session_state (snd (run_page failing_service hello_event demo_world)) !! "messages"
    = Some 1%positive.
Proof.
  split; [reflexivity|].
  apply (session_list_object_is_stable failing_service hello_event demo_world 1%positive
           (fst (run_page failing_service hello_event demo_world))
           (snd (run_page failing_service hello_event demo_world))
           eq_refl (surjective_pairing _)).
Defined.
